(** * PhysicsEngine: a mass-spring simulator, embedded and verified

    The engine of [physicsEngine.js] is translated method by method.
    JavaScript numbers are IEEE-754 binary64 values, so they are modelled
    by Rocq's primitive floats: every arithmetic expression below keeps the
    operand order and the parenthesisation of the source, and therefore
    rounds exactly where the source rounds.

    Mass objects are shared between [masses], the springs and the
    constraints. The model keeps them in one store, the list [masses];
    a spring or a constraint refers to a mass by its index in that list,
    and an in-place mutation of a mass is an [alter] of the store. *)

From Stdlib Require Import Floats.
From stdpp Require Import gmap strings list.

Set Warnings "-inexact-float".

Local Open Scope float_scope.

(** ** Numbers *)

Module JS.

(** [x !== x] holds of NaN only. *)
Definition isNaN (a : float) : bool := negb (a =? a).

(** ToBoolean on a number: [+0], [-0] and NaN are falsy. *)
Definition truthy (a : float) : bool := negb (a =? 0) && negb (isNaN a).

Definition isNegZero (a : float) : bool :=
  match classify a with
  | NZero => true
  | _ => false
  end.

(** [Math.min] and [Math.max]: NaN is contagious and [-0] counts as
    smaller than [+0]. *)
Definition Math_min (a b : float) : float :=
  if isNaN a || isNaN b then nan
  else if a <? b then a
  else if b <? a then b
  else if isNegZero a then a else b.

Definition Math_max (a b : float) : float :=
  if isNaN a || isNaN b then nan
  else if a <? b then b
  else if b <? a then a
  else if isNegZero a then b else a.

(** [a || b] on an optional number ([None] is [undefined]). *)
Definition or_else (a : option float) (b : float) : float :=
  match a with
  | Some v => if truthy v then v else b
  | None => b
  end.

(** [s.includes(sub)] on strings. *)
Fixpoint includes (s sub : string) : bool :=
  if String.prefix sub s then true
  else match s with
       | EmptyString => false
       | String _ s' => includes s' sub
       end.

End JS.

(** ** Data model *)

Record Vec3 : Type := mkVec3 { x : float; y : float; z : float }.

Definition zero3 : Vec3 := mkVec3 0 0 0.

Record Mass : Type := mkMass {
  mass_id : string;
  position : Vec3;
  originalPosition : Vec3;
  velocity : Vec3;
  force : Vec3;
  mass : float;
  fixed : bool;
  group : string;
  type : string
}.

Definition set_position (p : Vec3) (m : Mass) : Mass :=
  mkMass (mass_id m) p (originalPosition m) (velocity m) (force m)
         (mass m) (fixed m) (group m) (type m).

Definition set_velocity (v : Vec3) (m : Mass) : Mass :=
  mkMass (mass_id m) (position m) (originalPosition m) v (force m)
         (mass m) (fixed m) (group m) (type m).

Definition set_force (f : Vec3) (m : Mass) : Mass :=
  mkMass (mass_id m) (position m) (originalPosition m) (velocity m) f
         (mass m) (fixed m) (group m) (type m).

Definition set_fixed (b : bool) (m : Mass) : Mass :=
  mkMass (mass_id m) (position m) (originalPosition m) (velocity m) (force m)
         (mass m) b (group m) (type m).

(** A spring holds references to its two end masses: indices into the
    store. *)
Record Spring : Type := mkSpring {
  spring_mass1 : nat;
  spring_mass2 : nat;
  restLength : float;
  spring_stiffness : float;
  spring_damping : float
}.

(** The objects pushed on [constraints], by their [type] tag. *)
Inductive Constraint : Type :=
| Distance (mass1 mass2 : nat) (distance stiffness : float)
| Collision (mass : nat) (groundY restitution : float).

Definition is_distance (c : Constraint) : bool :=
  match c with
  | Distance _ _ _ _ => true
  | Collision _ _ _ => false
  end.

Record PhysicsEngine : Type := mkEngine {
  gravity : float;
  damping : float;
  stiffness : float;
  enabled : bool;
  timeStep : float;
  springs : list Spring;
  masses : list Mass;
  constraints : list Constraint;
  originalPositions : gmap string Vec3
}.

Definition set_masses (ms : list Mass) (e : PhysicsEngine) : PhysicsEngine :=
  mkEngine (gravity e) (damping e) (stiffness e) (enabled e) (timeStep e)
           (springs e) ms (constraints e) (originalPositions e).

(** The input topology. *)
Record Vertex : Type := mkVertex {
  vertex_id : string;
  vertex_x : float;
  vertex_y : float;
  vertex_z : float;
  vertex_group : string;
  vertex_type : string;
  vertex_weight : float
}.

(** The optional parts of the topology; [None] is an absent field. Of
    [jointConstraints] only the truthiness is read. *)
Record SpringsConfig : Type := mkSpringsConfig { muscleTension : option float }.
Record PhysicsConfig : Type := mkPhysicsConfig { config_springs : option SpringsConfig }.
Record Biomechanical : Type := mkBiomechanical { jointConstraints : option bool }.
Record Metadata : Type := mkMetadata { biomechanical : option Biomechanical }.

Record MeshData : Type := mkMeshData {
  vertices : list Vertex;
  edges : list (string * string);
  physics : option PhysicsConfig;
  metadata : option Metadata
}.

(** ** Construction *)

(** [new PhysicsEngine()] *)
Definition constructor : PhysicsEngine :=
  mkEngine 9.8 0.95 0.15 false (1 / 60) [] [] [] ∅.

(** [this.masses.find(m => m.id === id)]: the first mass with that id,
    as a reference. *)
Definition find (id : string) (ms : list Mass) : option (nat * Mass) :=
  list_find (λ m, mass_id m = id) ms.

Definition getMassById (id : string) (e : PhysicsEngine) : option (nat * Mass) :=
  find id (masses e).

Definition massOfVertex (v : Vertex) : Mass :=
  mkMass (vertex_id v)
         (mkVec3 (vertex_x v) (vertex_y v) (vertex_z v))
         (mkVec3 (vertex_x v) (vertex_y v) (vertex_z v))
         (mkVec3 0 0 0)
         (mkVec3 0 0 0)
         (vertex_weight v * 10)
         (String.eqb (vertex_type v) "joint" || JS.includes (vertex_group v) "head")
         (vertex_group v)
         (vertex_type v).

(** [meshData.physics?.springs?.muscleTension] *)
Definition meshTension (meshData : MeshData) : option float :=
  match physics meshData with
  | Some p => match config_springs p with
              | Some s => muscleTension s
              | None => None
              end
  | None => None
  end.

(** [meshData.metadata?.biomechanical?.jointConstraints], as a condition *)
Definition meshJointConstraints (meshData : MeshData) : bool :=
  match metadata meshData with
  | Some md => match biomechanical md with
               | Some b => match jointConstraints b with
                           | Some flag => flag
                           | None => false
                           end
               | None => false
               end
  | None => false
  end.

Definition length3 (dx dy dz : float) : float := sqrt (dx * dx + dy * dy + dz * dz).

(** The body of the loop over the edges. *)
Definition springOfEdge (tension : option float) (globalStiffness : float)
    (ms : list Mass) (edge : string * string) : option Spring :=
  match find (fst edge) ms, find (snd edge) ms with
  | Some (i1, v1), Some (i2, v2) =>
      let dx := x (position v2) - x (position v1) in
      let dy := y (position v2) - y (position v1) in
      let dz := z (position v2) - z (position v1) in
      let length := length3 dx dy dz in
      Some (mkSpring i1 i2 length (JS.or_else tension 0.3 * globalStiffness) 0.1)
  | _, _ => None
  end.

Definition jointConstraintTable : list (string * string * float) :=
  [ ("head_top", "neck_top_center", 15);
    ("head_chin", "neck_top_front", 8);
    ("shoulder_left_top", "clavicle_left", 12);
    ("shoulder_right_top", "clavicle_right", 12);
    ("hip_left", "waist_left", 10);
    ("hip_right", "waist_right", 10);
    ("neck_base_center", "spine_center", 30);
    ("spine_center", "waist_center_front", 15) ].

Definition jointConstraintOf (ms : list Mass) (row : string * string * float)
    : option Constraint :=
  let '(id1, id2, distance) := row in
  match find id1 ms, find id2 ms with
  | Some (i1, _), Some (i2, _) => Some (Distance i1 i2 distance 0.9)
  | _, _ => None
  end.

(** [addJointConstraints], as the list of the objects it pushes *)
Definition addJointConstraints (ms : list Mass) : list Constraint :=
  omap (jointConstraintOf ms) jointConstraintTable.

Definition belowGround (m : Mass) : bool :=
  negb (fixed m) && (y (position m) <? -50).

(** [addCollisionConstraints], as the list of the objects it pushes; the
    masses are visited in order, [i] is the index of the first one. *)
Fixpoint addCollisionConstraints (i : nat) (ms : list Mass) : list Constraint :=
  match ms with
  | [] => []
  | m :: ms' =>
      if belowGround m
      then Collision i (-50) 0.7 :: addCollisionConstraints (S i) ms'
      else addCollisionConstraints (S i) ms'
  end.

Definition recordOriginal (om : gmap string Vec3) (v : Vertex) : gmap string Vec3 :=
  <[vertex_id v := mkVec3 (vertex_x v) (vertex_y v) (vertex_z v)]> om.

Definition parsePhysicsData (meshData : MeshData) (e : PhysicsEngine) : PhysicsEngine :=
  let ms := massOfVertex <$> vertices meshData in
  let om := foldl recordOriginal ∅ (vertices meshData) in
  let ss := omap (springOfEdge (meshTension meshData) (stiffness e) ms) (edges meshData) in
  let cs := (if meshJointConstraints meshData then addJointConstraints ms else [])
            ++ addCollisionConstraints 0 ms in
  mkEngine (gravity e) (damping e) (stiffness e) (enabled e) (timeStep e) ss ms cs om.

(** [init(meshData)]; [None] is a missing argument. *)
Definition init (meshData : option MeshData) (e : PhysicsEngine) : PhysicsEngine :=
  match meshData with
  | Some md => parsePhysicsData md e
  | None => e
  end.

(** ** The simulation step *)

Definition vadd (a b : Vec3) : Vec3 := mkVec3 (x a + x b) (y a + y b) (z a + z b).
Definition vsub (a b : Vec3) : Vec3 := mkVec3 (x a - x b) (y a - y b) (z a - z b).

Definition addForce (f : Vec3) (m : Mass) : Mass := set_force (vadd (force m) f) m.
Definition subForce (f : Vec3) (m : Mass) : Mass := set_force (vsub (force m) f) m.
Definition addPosition (p : Vec3) (m : Mass) : Mass := set_position (vadd (position m) p) m.
Definition subPosition (p : Vec3) (m : Mass) : Mass := set_position (vsub (position m) p) m.

(** Gravity, the first loop of [applyForces]. *)
Definition applyGravity (g : float) (m : Mass) : Mass :=
  if fixed m then m
  else set_force (mkVec3 (x (force m)) (y (force m) - mass m * g) (z (force m))) m.

(** One spring, the body of the second loop of [applyForces]. Both ends
    are read from the store first; the two updates are done in order on
    the store, so that a spring from a mass to itself is treated as in
    the source. The last branch stands for a reference that points
    outside the store, which no engine holds (see [refs_wf]). *)
Definition applySpring (ms : list Mass) (spring : Spring) : list Mass :=
  match ms !! spring_mass1 spring, ms !! spring_mass2 spring with
  | Some m1, Some m2 =>
      let dx := x (position m2) - x (position m1) in
      let dy := y (position m2) - y (position m1) in
      let dz := z (position m2) - z (position m1) in
      let distance := length3 dx dy dz in
      if distance =? 0 then ms
      else
        let displacement := distance - restLength spring in
        let forceMagnitude := spring_stiffness spring * displacement in
        let dirX := dx / distance in
        let dirY := dy / distance in
        let dirZ := dz / distance in
        let f := mkVec3 (forceMagnitude * dirX) (forceMagnitude * dirY)
                        (forceMagnitude * dirZ) in
        let ms1 := if fixed m1 then ms
                   else alter (addForce f) (spring_mass1 spring) ms in
        if fixed m2 then ms1
        else alter (subForce f) (spring_mass2 spring) ms1
  | _, _ => ms
  end.

Definition applyForces (e : PhysicsEngine) : PhysicsEngine :=
  set_masses (foldl applySpring (applyGravity (gravity e) <$> masses e) (springs e)) e.

Definition integrateMass (damping deltaTime : float) (m : Mass) : Mass :=
  if fixed m then m
  else
    let ax := x (force m) / mass m in
    let ay := y (force m) / mass m in
    let az := z (force m) / mass m in
    let v := mkVec3 ((x (velocity m) + ax * deltaTime) * damping)
                    ((y (velocity m) + ay * deltaTime) * damping)
                    ((z (velocity m) + az * deltaTime) * damping) in
    let p := mkVec3 (x (position m) + x v * deltaTime)
                    (y (position m) + y v * deltaTime)
                    (z (position m) + z v * deltaTime) in
    set_position p (set_velocity v m).

Definition integrate (deltaTime : float) (e : PhysicsEngine) : PhysicsEngine :=
  set_masses (integrateMass (damping e) deltaTime <$> masses e) e.

Definition applyDistanceConstraint (ms : list Mass) (i1 i2 : nat)
    (distance0 stiffness0 : float) : list Mass :=
  match ms !! i1, ms !! i2 with
  | Some m1, Some m2 =>
      let dx := x (position m2) - x (position m1) in
      let dy := y (position m2) - y (position m1) in
      let dz := z (position m2) - z (position m1) in
      let distance := length3 dx dy dz in
      if distance =? 0 then ms
      else
        let diff := (distance - distance0) / distance in
        let adjust := mkVec3 (dx * diff * 0.5 * stiffness0)
                             (dy * diff * 0.5 * stiffness0)
                             (dz * diff * 0.5 * stiffness0) in
        let ms1 := if fixed m1 then ms else alter (addPosition adjust) i1 ms in
        if fixed m2 then ms1 else alter (subPosition adjust) i2 ms1
  | _, _ => ms
  end.

(** The body of the inner [forEach] of [applyConstraints]. *)
Definition applyConstraint (ms : list Mass) (c : Constraint) : list Mass :=
  match c with
  | Distance i1 i2 d k => applyDistanceConstraint ms i1 i2 d k
  | Collision _ _ _ => ms
  end.

(** [for (let i = start; i < bound; i++) body], by recursion on the number
    of iterations left. *)
Fixpoint forLoop {A : Type} (n : nat) (body : A → A) (a : A) : A :=
  match n with
  | O => a
  | S n' => forLoop n' body (body a)
  end.

Definition applyConstraints (e : PhysicsEngine) : PhysicsEngine :=
  set_masses
    (forLoop 3 (λ ms, foldl applyConstraint ms (constraints e)) (masses e)) e.

Definition collideMass (m : Mass) : Mass :=
  if negb (fixed m) && (y (position m) <? -50)
  then set_velocity (mkVec3 (x (velocity m) * 0.9)
                            (- y (velocity m) * 0.7)
                            (z (velocity m) * 0.9))
         (set_position (mkVec3 (x (position m)) (-50) (z (position m))) m)
  else m.

Definition handleCollisions (e : PhysicsEngine) : PhysicsEngine :=
  set_masses (collideMass <$> masses e) e.

Definition clearForces (e : PhysicsEngine) : PhysicsEngine :=
  set_masses (set_force (mkVec3 0 0 0) <$> masses e) e.

Definition getMassPositions (e : PhysicsEngine) : list (string * Vec3) :=
  (λ m, (mass_id m, mkVec3 (x (position m)) (y (position m)) (z (position m))))
    <$> masses e.

(** [update(deltaTime = this.timeStep)]: the new engine state and the
    value returned ([None] is [undefined]). *)
Definition update (deltaTime : option float) (e : PhysicsEngine)
    : PhysicsEngine * option (list (string * Vec3)) :=
  let dt := default (timeStep e) deltaTime in
  if negb (enabled e) || (dt <=? 0) then (e, None)
  else
    let e' := clearForces (handleCollisions (applyConstraints
                (integrate dt (applyForces e)))) in
    (e', Some (getMassPositions e')).

(** ** Configuration and the force interface *)

Definition enable (e : PhysicsEngine) : PhysicsEngine :=
  mkEngine (gravity e) (damping e) (stiffness e) true (timeStep e)
           (springs e) (masses e) (constraints e) (originalPositions e).

Definition disable (e : PhysicsEngine) : PhysicsEngine :=
  mkEngine (gravity e) (damping e) (stiffness e) false (timeStep e)
           (springs e) (masses e) (constraints e) (originalPositions e).

Definition setGravity (value : float) (e : PhysicsEngine) : PhysicsEngine :=
  mkEngine value (damping e) (stiffness e) (enabled e) (timeStep e)
           (springs e) (masses e) (constraints e) (originalPositions e).

Definition setStiffness (s : float) (e : PhysicsEngine) : PhysicsEngine :=
  let k := JS.Math_max 0 (JS.Math_min 1 s) in
  mkEngine (gravity e) (damping e) k (enabled e) (timeStep e)
           ((λ sp, mkSpring (spring_mass1 sp) (spring_mass2 sp) (restLength sp)
                            k (spring_damping sp)) <$> springs e)
           (masses e) (constraints e) (originalPositions e).

Definition setDamping (d : float) (e : PhysicsEngine) : PhysicsEngine :=
  mkEngine (gravity e) (JS.Math_max 0 (JS.Math_min 1 d)) (stiffness e) (enabled e)
           (timeStep e) (springs e) (masses e) (constraints e) (originalPositions e).

Definition applyForce (massId : string) (f : Vec3) (e : PhysicsEngine) : PhysicsEngine :=
  match find massId (masses e) with
  | Some (i, m) =>
      if negb (fixed m) then set_masses (alter (addForce f) i (masses e)) e else e
  | None => e
  end.

Definition addImpulse (impulse : Vec3) (m : Mass) : Mass :=
  set_velocity (mkVec3 (x (velocity m) + x impulse / mass m)
                       (y (velocity m) + y impulse / mass m)
                       (z (velocity m) + z impulse / mass m)) m.

Definition applyImpulse (massId : string) (impulse : Vec3) (e : PhysicsEngine)
    : PhysicsEngine :=
  match find massId (masses e) with
  | Some (i, m) =>
      if negb (fixed m) then set_masses (alter (addImpulse impulse) i (masses e)) e else e
  | None => e
  end.

Definition resetMass (om : gmap string Vec3) (m : Mass) : Mass :=
  let m1 := match om !! mass_id m with
            | Some originalPos =>
                set_position (mkVec3 (x originalPos) (y originalPos) (z originalPos)) m
            | None => m
            end in
  set_force (mkVec3 0 0 0) (set_velocity (mkVec3 0 0 0) m1).

Definition reset (e : PhysicsEngine) : PhysicsEngine :=
  set_masses (resetMass (originalPositions e) <$> masses e) e.

Record PhysicsData : Type := mkPhysicsData {
  data_enabled : bool;
  data_gravity : float;
  data_damping : float;
  data_stiffness : float;
  massCount : nat;
  springCount : nat;
  constraintCount : nat
}.

Definition getPhysicsData (e : PhysicsEngine) : PhysicsData :=
  mkPhysicsData (enabled e) (gravity e) (damping e) (stiffness e)
                (length (masses e)) (length (springs e)) (length (constraints e)).

(** [toggleFixed(massId)]: the new state and the value returned ([None] is
    [null]). *)
Definition toggleFixed (massId : string) (e : PhysicsEngine)
    : PhysicsEngine * option bool :=
  match getMassById massId e with
  | Some (i, m) =>
      (set_masses (alter (set_fixed (negb (fixed m))) i (masses e)) e,
       Some (negb (fixed m)))
  | None => (e, None)
  end.

Definition windMass (windForce : Vec3) (m : Mass) : Mass :=
  if negb (fixed m)
  then set_force (mkVec3 (x (force m) + x windForce * mass m)
                         (y (force m) + y windForce * mass m)
                         (z (force m) + z windForce * mass m)) m
  else m.

Definition applyWind (windForce : Vec3) (e : PhysicsEngine) : PhysicsEngine :=
  set_masses (windMass windForce <$> masses e) e.

Definition explodeMass (center : Vec3) (radius force0 : float) (m : Mass) : Mass :=
  if negb (fixed m) then
    let dx := x (position m) - x center in
    let dy := y (position m) - y center in
    let dz := z (position m) - z center in
    let distance := length3 dx dy dz in
    if (distance <? radius) && (0 <? distance) then
      let attenuation := (radius - distance) / radius in
      let dirX := dx / distance in
      let dirY := dy / distance in
      let dirZ := dz / distance in
      set_force (mkVec3 (x (force m) + dirX * force0 * attenuation * mass m)
                        (y (force m) + dirY * force0 * attenuation * mass m)
                        (z (force m) + dirZ * force0 * attenuation * mass m)) m
    else m
  else m.

Definition applyExplosion (center : Vec3) (radius force0 : float) (e : PhysicsEngine)
    : PhysicsEngine :=
  set_masses (explodeMass center radius force0 <$> masses e) e.

(** ** Sequences of calls *)

Inductive Op : Type :=
| OUpdate (deltaTime : option float)
| OApplyForce (massId : string) (f : Vec3)
| OApplyImpulse (massId : string) (impulse : Vec3)
| OApplyWind (windForce : Vec3)
| OApplyExplosion (center : Vec3) (radius force0 : float)
| OToggleFixed (massId : string)
| OReset
| OEnable
| ODisable
| OSetGravity (value : float)
| OSetStiffness (s : float)
| OSetDamping (d : float).

Definition exec (e : PhysicsEngine) (op : Op) : PhysicsEngine :=
  match op with
  | OUpdate dt => fst (update dt e)
  | OApplyForce id f => applyForce id f e
  | OApplyImpulse id i => applyImpulse id i e
  | OApplyWind w => applyWind w e
  | OApplyExplosion c r f => applyExplosion c r f e
  | OToggleFixed id => fst (toggleFixed id e)
  | OReset => reset e
  | OEnable => enable e
  | ODisable => disable e
  | OSetGravity g => setGravity g e
  | OSetStiffness s => setStiffness s e
  | OSetDamping d => setDamping d e
  end.

Definition run (ops : list Op) (e : PhysicsEngine) : PhysicsEngine := foldl exec e ops.

(** ** The scenario of the specification: a joint A and a surface point B *)

Definition scenarioMesh : MeshData :=
  mkMeshData
    [ mkVertex "A" 0 0 0 "torso" "joint" 1;
      mkVertex "B" 0 (-10) 0 "torso" "surface" 1 ]
    [ ("A", "B") ] None None.

Definition scenario : PhysicsEngine := enable (init (Some scenarioMesh) constructor).

Definition pushedWhileDisabled : PhysicsEngine :=
  applyForce "B" (mkVec3 1 2 3) (disable scenario).

Definition sunkenMass : Mass :=
  mkMass "foot" (mkVec3 1 (-60) 2) (mkVec3 1 (-60) 2) (mkVec3 4 (-5) 6) zero3
         10 false "leg" "surface".

Definition sunken : PhysicsEngine := set_masses [sunkenMass] constructor.

Definition slackMesh : MeshData :=
  mkMeshData (vertices scenarioMesh) (edges scenarioMesh)
             (Some (mkPhysicsConfig (Some (mkSpringsConfig (Some 0))))) None.

(** ** Auxiliary states for the properties below *)

Definition set_constraints (cs : list Constraint) (e : PhysicsEngine) : PhysicsEngine :=
  mkEngine (gravity e) (damping e) (stiffness e) (enabled e) (timeStep e)
           (springs e) (masses e) cs (originalPositions e).

(** A topology with one free vertex that starts below the ground plane. *)
Definition sunkenMesh : MeshData :=
  mkMeshData [ mkVertex "foot" 1 (-60) 2 "leg" "surface" 1 ] [] None None.

(** Two free vertices named in the joint-constraint table, 13 apart. *)
Definition hipMesh : MeshData :=
  mkMeshData
    [ mkVertex "hip_left" 0 0 0 "leg" "surface" 1;
      mkVertex "waist_left" 0 13 0 "torso" "surface" 1 ]
    [ ("hip_left", "waist_left") ] None
    (Some (mkMetadata (Some (mkBiomechanical (Some true))))).

Definition hips : PhysicsEngine := enable (init (Some hipMesh) constructor).

Definition massA : Mass := mkMass "A" zero3 zero3 zero3 zero3 10 true "torso" "joint".

Definition massB : Mass :=
  mkMass "B" (mkVec3 0 (-10) 0) (mkVec3 0 (-10) 0) zero3 zero3 10 false "torso" "surface".

Definition busyDay : list Op :=
  [ OApplyForce "A" (mkVec3 1 2 3); OApplyWind (mkVec3 0.5 0 0); OUpdate None;
    OApplyExplosion (mkVec3 0 (-1) 0) 20 50; OApplyImpulse "A" (mkVec3 0 9 0);
    OToggleFixed "B"; OReset; OSetGravity 1.62; OUpdate (Some 0.1) ].

(** Every mass is recorded in [originalPositions] under its id, with the
    position it was created at. *)
Definition snapshot_ok (e : PhysicsEngine) : Prop :=
  Forall (λ m, originalPositions e !! mass_id m = Some (originalPosition m)) (masses e).

(** The state of the scenario after a day of calls. *)
Definition worn : PhysicsEngine :=
  run [ OApplyImpulse "B" (mkVec3 3 0 (-2)); OUpdate None; OUpdate (Some 0.5);
        OApplyForce "B" (mkVec3 0 700 0); OSetDamping 2 ] scenario.

(** [n] calls of [update(dt)] in a row. *)
Fixpoint steps (n : nat) (dt : float) (e : PhysicsEngine) : PhysicsEngine :=
  match n with
  | O => e
  | S k => fst (update (Some dt) (steps k dt e))
  end.

(** The two ends of a distance constraint are different masses. *)
Definition constraints_wf (e : PhysicsEngine) : Prop :=
  Forall (λ c, match c with
               | Distance i1 i2 _ _ => i1 ≠ i2
               | Collision _ _ _ => True
               end) (constraints e).

(** One free mass, no edges, just above the ground plane. *)
Definition dropMesh : MeshData :=
  mkMeshData [ mkVertex "ball" 0 (-49.999) 0 "torso" "surface" 1 ] [] None None.

Definition drop : PhysicsEngine := enable (init (Some dropMesh) constructor).

(** One free mass, no edges, high above the ground plane. *)
Definition skyMesh : MeshData :=
  mkMeshData [ mkVertex "ball" 0 100 0 "torso" "surface" 1 ] [] None None.

Definition sky : PhysicsEngine := enable (init (Some skyMesh) constructor).

Definition skyMass : Mass :=
  mkMass "ball" (mkVec3 0 100 0) (mkVec3 0 100 0) zero3 zero3 10 false "torso" "surface".

(** Every mass has an entry in [originalPositions] under its id. *)
Definition recorded (e : PhysicsEngine) : Prop :=
  Forall (λ m, is_Some (originalPositions e !! mass_id m)) (masses e).

(** A topology that uses one id for two vertices. *)
Definition twinMesh : MeshData :=
  mkMeshData
    [ mkVertex "knee" 0 1 0 "leg" "surface" 1;
      mkVertex "knee" 0 2 0 "leg" "surface" 1 ] [] None None.

(** Every reference held by a spring or a constraint points into the
    store. *)
Definition refs_wf (e : PhysicsEngine) : Prop :=
  Forall (λ s, (spring_mass1 s < length (masses e)
                ∧ spring_mass2 s < length (masses e))%nat) (springs e)
  ∧ Forall (λ c, match c with
                 | Distance i1 i2 _ _ =>
                     (i1 < length (masses e) ∧ i2 < length (masses e))%nat
                 | Collision i _ _ => (i < length (masses e))%nat
                 end) (constraints e).

(** The scenario after B was pushed and then pinned. *)
Definition pinned : PhysicsEngine :=
  run [ OApplyImpulse "B" (mkVec3 10 0 0); OToggleFixed "B" ] scenario.

Definition pinnedB : Mass :=
  mkMass "B" (mkVec3 0 (-10) 0) (mkVec3 0 (-10) 0) (mkVec3 1 0 0) zero3
         10 true "torso" "surface".

(** ** What the further properties speak about *)

(** What identifies a mass: the fields no method assigns to. *)
Definition identity (m : Mass) : string * Vec3 * float * string * string :=
  (mass_id m, originalPosition m, mass m, group m, type m).

(** What identifies a spring but its stiffness. *)
Definition springShape (s : Spring) : nat * nat * float * float :=
  (spring_mass1 s, spring_mass2 s, restLength s, spring_damping s).

Definition is_update (op : Op) : bool :=
  match op with
  | OUpdate _ => true
  | _ => false
  end.

Definition is_toggle (op : Op) : bool :=
  match op with
  | OToggleFixed _ => true
  | _ => false
  end.

(** The ids of an edge both name a vertex. *)
Definition knownEdge (meshData : MeshData) (edge : string * string) : bool :=
  bool_decide (edge.1 ∈ vertex_id <$> vertices meshData)
  && bool_decide (edge.2 ∈ vertex_id <$> vertices meshData).

(** * Properties *)

(** Case analysis on the guards of a call: the [enabled]/[dt] test of
    [update], the result of [find] and the [fixed] test behind it. *)
Ltac call_cases :=
  unfold update, applyForce, applyImpulse, toggleFixed, getMassById;
  repeat match goal with
         | |- context [match find ?id ?ms with _ => _ end] =>
             destruct (find id ms) as [[? ?] |]
         | |- context [if ?b then _ else _] => destruct b
         end.

(** ** Records and the store *)

Lemma vec3_eta (v : Vec3) : mkVec3 (x v) (y v) (z v) = v.
Proof. by destruct v. Qed.

Lemma set_force_same (m : Mass) : set_force (force m) m = m.
Proof. by destruct m. Qed.

Lemma set_force_twice (f g : Vec3) (m : Mass) : set_force f (set_force g m) = set_force f m.
Proof. done. Qed.

Lemma set_masses_same (e : PhysicsEngine) : set_masses (masses e) e = e.
Proof. by destruct e. Qed.

(** [find] returns a mass of the store that carries the id asked for. *)
Lemma find_Some (id : string) (ms : list Mass) (i : nat) (m : Mass) :
  find id ms = Some (i, m) → ms !! i = Some m ∧ mass_id m = id.
Proof. unfold find. intros H. apply list_find_Some in H. by destruct H as (? & ? & _). Qed.

Lemma find_None (id : string) (ms : list Mass) :
  Forall (λ m, mass_id m ≠ id) ms → find id ms = None.
Proof. unfold find. intros H. by apply list_find_None. Qed.

(** ** The disabled engine and the non-positive time step *)

Lemma clearForces_zero (e : PhysicsEngine) :
  Forall (λ m, force m = zero3) (masses (clearForces e)).
Proof.
  unfold clearForces. simpl. apply Forall_fmap, Forall_true. done.
Qed.

(** C3: when the engine is disabled or the time step is not positive,
    [update] returns [undefined] and leaves the whole engine state as it
    was, force accumulators included; a step that does run ends with
    [clearForces], after which every accumulator is zero. *)
Theorem update_noop_unless_enabled_and_positive
    (e : PhysicsEngine) (deltaTime : option float) :
  let dt := default (timeStep e) deltaTime in
  (enabled e = false ∨ (dt <=? 0) = true → update deltaTime e = (e, None))
  ∧ (enabled e = true → (dt <=? 0) = false →
     ∃ e', update deltaTime e = (clearForces e', Some (getMassPositions (clearForces e')))
           ∧ Forall (λ m, force m = zero3) (masses (fst (update deltaTime e)))).
Proof.
  intros dt. split.
  - intros H. unfold update. fold dt.
    destruct H as [-> | ->]; [done | by rewrite orb_true_r].
  - intros Hen Hdt. unfold update. fold dt. rewrite Hen, Hdt. cbn [negb orb fst].
    eexists. split; [reflexivity |]. apply clearForces_zero.
Qed.

Lemma update_noop_unless_enabled_and_positive_witness :
  update (Some (1 / 60)) pushedWhileDisabled = (pushedWhileDisabled, None)
  ∧ update (Some (-1)) scenario = (scenario, None)
  ∧ Forall (λ m, force m = zero3)
      (masses (fst (update None (enable pushedWhileDisabled)))).
Proof.
  split; [| split].
  - apply (proj1 (update_noop_unless_enabled_and_positive pushedWhileDisabled (Some (1 / 60)))).
    left. reflexivity.
  - apply (proj1 (update_noop_unless_enabled_and_positive scenario (Some (-1)))).
    right. reflexivity.
  - destruct (proj2 (update_noop_unless_enabled_and_positive
                       (enable pushedWhileDisabled) None)) as [e' [_ H]];
      [reflexivity | reflexivity | exact H].
Defined.

(** ** Ground collisions *)

(** C5: in the collision phase a non-fixed mass below [-50] is put on the
    ground plane, its vertical velocity is negated and scaled by [0.7], its
    horizontal velocities are scaled by [0.9]; every other mass, and every
    other field, is left as it was. *)
Theorem handleCollisions_clamps (e : PhysicsEngine) (i : nat) (m : Mass) :
  masses e !! i = Some m →
  ∃ m', masses (handleCollisions e) !! i = Some m'
    ∧ (fixed m = false → (y (position m) <? -50) = true →
         position m' = mkVec3 (x (position m)) (-50) (z (position m))
         ∧ velocity m' = mkVec3 (x (velocity m) * 0.9) (- y (velocity m) * 0.7)
                                (z (velocity m) * 0.9)
         ∧ m' = set_velocity (velocity m') (set_position (position m') m))
    ∧ (fixed m = true ∨ (y (position m) <? -50) = false → m' = m).
Proof.
  intros Hm. exists (collideMass m). split.
  - unfold handleCollisions. simpl. by rewrite list_lookup_fmap, Hm.
  - unfold collideMass. split.
    + intros -> ->. simpl. done.
    + intros [-> | ->]; [done | by rewrite andb_false_r].
Qed.

Lemma handleCollisions_clamps_witness :
  ∃ m', masses (handleCollisions sunken) !! 0%nat = Some m'
    ∧ position m' = mkVec3 1 (-50) 2
    ∧ velocity m' = mkVec3 (4 * 0.9) (- (-5) * 0.7) (6 * 0.9).
Proof.
  destruct (handleCollisions_clamps sunken 0 sunkenMass) as (m' & Hm' & Hlow & _);
    [reflexivity |].
  exists m'. split; [exact Hm' |].
  destruct Hlow as (Hp & Hv & _); [reflexivity | reflexivity |].
  split; [exact Hp | exact Hv].
Defined.

(** ** Explosions *)

(** C7: [applyExplosion] adds to every non-fixed mass at a distance [r]
    from the centre with [0 < r < radius] the force
    [dir * forceScale * ((radius - r) / radius) * mass], where [dir] is the
    separation from the centre divided by [r]; fixed masses, masses at the
    centre and masses at or beyond the radius are left as they were. *)
Theorem applyExplosion_falloff
    (center : Vec3) (radius forceScale : float) (e : PhysicsEngine) (i : nat) (m : Mass) :
  masses e !! i = Some m →
  let dx := x (position m) - x center in
  let dy := y (position m) - y center in
  let dz := z (position m) - z center in
  let r := sqrt (dx * dx + dy * dy + dz * dz) in
  let attenuation := (radius - r) / radius in
  ∃ m', masses (applyExplosion center radius forceScale e) !! i = Some m'
    ∧ (fixed m = false → (0 <? r) = true → (r <? radius) = true →
         m' = set_force
                (mkVec3 (x (force m) + dx / r * forceScale * attenuation * mass m)
                        (y (force m) + dy / r * forceScale * attenuation * mass m)
                        (z (force m) + dz / r * forceScale * attenuation * mass m)) m)
    ∧ (fixed m = true ∨ (0 <? r) = false ∨ (r <? radius) = false → m' = m).
Proof.
  intros Hm dx dy dz r attenuation.
  exists (explodeMass center radius forceScale m). split.
  - unfold applyExplosion. simpl. by rewrite list_lookup_fmap, Hm.
  - unfold explodeMass, length3. fold dx dy dz. fold r. split.
    + intros -> Hpos Hin. simpl. by rewrite Hpos, Hin.
    + intros [-> | [-> | ->]]; [done | | ].
      * destruct (fixed m); simpl; [done | by rewrite andb_false_r].
      * by destruct (fixed m).
Qed.

Lemma applyExplosion_falloff_witness :
  ∃ m', masses (applyExplosion (mkVec3 0 (-7) 0) 5 100 scenario) !! 1%nat = Some m'
    ∧ force m' = mkVec3 0 ((-3) / 3 * 100 * ((5 - 3) / 5) * 10) 0.
Proof.
  destruct (applyExplosion_falloff (mkVec3 0 (-7) 0) 5 100 scenario 1
              (mkMass "B" (mkVec3 0 (-10) 0) (mkVec3 0 (-10) 0) zero3 zero3
                      10 false "torso" "surface"))
    as (m' & Hm' & Hin & _); [reflexivity |].
  exists m'. split; [exact Hm' |].
  rewrite Hin; reflexivity.
Defined.

(** ** Unknown ids and fixed masses *)

(** C9: for an id that no mass carries, [applyForce], [applyImpulse] and
    [toggleFixed] leave the engine as it is and [toggleFixed] returns
    [null]; [applyForce] and [applyImpulse] also leave the engine as it is
    when the mass they find is fixed. *)
Theorem unknown_id_or_fixed_noop (e : PhysicsEngine) (massId : string) (v : Vec3) :
  (Forall (λ m, mass_id m ≠ massId) (masses e) →
     applyForce massId v e = e ∧ applyImpulse massId v e = e
     ∧ toggleFixed massId e = (e, None))
  ∧ (∀ i m, find massId (masses e) = Some (i, m) → fixed m = true →
     applyForce massId v e = e ∧ applyImpulse massId v e = e).
Proof.
  split.
  - intros H. apply find_None in H.
    unfold applyForce, applyImpulse, toggleFixed, getMassById. by rewrite H.
  - intros i m H Hfix. unfold applyForce, applyImpulse. by rewrite H, Hfix.
Qed.

Lemma unknown_id_or_fixed_noop_witness :
  (applyForce "nose" (mkVec3 1 2 3) scenario = scenario
   ∧ applyImpulse "nose" (mkVec3 1 2 3) scenario = scenario
   ∧ toggleFixed "nose" scenario = (scenario, None))
  ∧ (applyForce "A" (mkVec3 1 2 3) scenario = scenario
     ∧ applyImpulse "A" (mkVec3 1 2 3) scenario = scenario).
Proof.
  split.
  - apply (proj1 (unknown_id_or_fixed_noop scenario "nose" (mkVec3 1 2 3))).
    repeat constructor; discriminate.
  - apply (proj2 (unknown_id_or_fixed_noop scenario "A" (mkVec3 1 2 3)) 0%nat
             (mkMass "A" zero3 zero3 zero3 zero3 10 true "torso" "joint"));
      reflexivity.
Defined.

(** ** Spring stiffness at construction *)

Lemma or_else_falsy (t : option float) (d : float) :
  match t with Some v => JS.truthy v = false | None => True end →
  JS.or_else t d = d.
Proof. destruct t as [v |]; simpl; [by intros -> | done]. Qed.

(** C10: when [muscleTension] is absent or falsy ([0], [-0] or NaN), every
    spring created by [parsePhysicsData] has stiffness [0.3] times the
    global stiffness. *)
Theorem falsy_tension_takes_default (meshData : MeshData) (e : PhysicsEngine) (s : Spring) :
  match meshTension meshData with
  | Some t => JS.truthy t = false
  | None => True
  end →
  s ∈ springs (parsePhysicsData meshData e) →
  spring_stiffness s = 0.3 * stiffness e.
Proof.
  intros Hfalsy Hs. unfold parsePhysicsData in Hs. cbn [springs] in Hs.
  apply list_elem_of_omap in Hs. destruct Hs as (edge & _ & Hedge).
  unfold springOfEdge in Hedge.
  destruct (find edge.1 _) as [[i1 v1] |]; [| done].
  destruct (find edge.2 _) as [[i2 v2] |]; [| done].
  injection Hedge as <-. cbn [spring_stiffness].
  by rewrite (or_else_falsy _ _ Hfalsy).
Qed.

Lemma falsy_tension_takes_default_witness :
  springs (parsePhysicsData slackMesh constructor) = [mkSpring 0 1 10 (0.3 * 0.15) 0.1]
  ∧ spring_stiffness (mkSpring 0 1 10 (0.3 * 0.15) 0.1) = 0.3 * stiffness constructor.
Proof.
  split; [vm_compute; reflexivity |].
  apply (falsy_tension_takes_default slackMesh constructor).
  - reflexivity.
  - vm_compute. left.
Defined.

(** ** Constraint relaxation *)

Lemma applyConstraint_inert (ms : list Mass) (c : Constraint) :
  is_distance c = false → applyConstraint ms c = ms.
Proof. by destruct c. Qed.

(** The [collision] records on [constraints] are skipped by the loop. *)
Lemma relax_filter (cs : list Constraint) (ms : list Mass) :
  foldl applyConstraint ms (List.filter is_distance cs) = foldl applyConstraint ms cs.
Proof.
  revert ms. induction cs as [| c cs IH]; intros ms; [done |].
  cbn [List.filter]. destruct (is_distance c) eqn:Hc; cbn [foldl].
  - apply IH.
  - rewrite (applyConstraint_inert ms c Hc). apply IH.
Qed.

Lemma applyDistanceConstraint_spec (ms : list Mass) (i1 i2 : nat) (m1 m2 : Mass)
    (d k : float) :
  ms !! i1 = Some m1 → ms !! i2 = Some m2 → i1 ≠ i2 →
  let dx := x (position m2) - x (position m1) in
  let dy := y (position m2) - y (position m1) in
  let dz := z (position m2) - z (position m1) in
  let r := sqrt (dx * dx + dy * dy + dz * dz) in
  let diff := (r - d) / r in
  let adjust := mkVec3 (dx * diff * 0.5 * k) (dy * diff * 0.5 * k) (dz * diff * 0.5 * k) in
  let ms' := applyDistanceConstraint ms i1 i2 d k in
  ((r =? 0) = true → ms' = ms)
  ∧ ((r =? 0) = false →
       ms' !! i1 = Some (if fixed m1 then m1
                         else set_position (vadd (position m1) adjust) m1)
       ∧ ms' !! i2 = Some (if fixed m2 then m2
                           else set_position (vsub (position m2) adjust) m2)
       ∧ ∀ j, j ≠ i1 → j ≠ i2 → ms' !! j = ms !! j)
  ∧ (fixed m1 = true → fixed m2 = true → ms' = ms).
Proof.
  intros H1 H2 Hne dx dy dz r diff adjust ms'.
  unfold ms', applyDistanceConstraint, length3. rewrite H1, H2.
  fold dx dy dz. fold r. fold diff. fold adjust.
  split; [| split].
  - by intros ->.
  - intros ->. destruct (fixed m1), (fixed m2); (split; [| split]); intros;
      repeat first [ rewrite list_lookup_alter_eq
                   | rewrite list_lookup_alter_ne by done ];
      by rewrite ?H1, ?H2.
  - intros -> ->. by destruct (r =? 0).
Qed.

(** C6: the relaxation phase runs the loop over [constraints] three times;
    the loop only acts on the distance constraints; a distance constraint
    whose end masses are at distance [r] changes nothing when [r == 0],
    and otherwise moves the first end, if it is not fixed, by
    [sep * ((r - target) / r) * 0.5 * stiffness] and the second end, if it
    is not fixed, by the opposite amount, and touches nothing else. *)
Theorem applyConstraints_three_passes (e : PhysicsEngine) :
  let pass := λ ms, foldl applyConstraint ms (List.filter is_distance (constraints e)) in
  applyConstraints e = set_masses (pass (pass (pass (masses e)))) e
  ∧ ∀ (ms : list Mass) (i1 i2 : nat) (m1 m2 : Mass) (d k : float),
      ms !! i1 = Some m1 → ms !! i2 = Some m2 → i1 ≠ i2 →
      let dx := x (position m2) - x (position m1) in
      let dy := y (position m2) - y (position m1) in
      let dz := z (position m2) - z (position m1) in
      let r := sqrt (dx * dx + dy * dy + dz * dz) in
      let diff := (r - d) / r in
      let adjust :=
        mkVec3 (dx * diff * 0.5 * k) (dy * diff * 0.5 * k) (dz * diff * 0.5 * k) in
      let ms' := applyConstraint ms (Distance i1 i2 d k) in
      ((r =? 0) = true → ms' = ms)
      ∧ ((r =? 0) = false →
           ms' !! i1 = Some (if fixed m1 then m1
                             else set_position (vadd (position m1) adjust) m1)
           ∧ ms' !! i2 = Some (if fixed m2 then m2
                               else set_position (vsub (position m2) adjust) m2)
           ∧ ∀ j, j ≠ i1 → j ≠ i2 → ms' !! j = ms !! j)
      ∧ (fixed m1 = true → fixed m2 = true → ms' = ms).
Proof.
  intros pass. split.
  - unfold applyConstraints, pass. cbn [forLoop]. by rewrite !relax_filter.
  - intros ms i1 i2 m1 m2 d k H1 H2 Hne.
    exact (applyDistanceConstraint_spec ms i1 i2 m1 m2 d k H1 H2 Hne).
Qed.

Lemma applyConstraints_three_passes_witness :
  applyConstraints hips
  = set_masses
      (foldl applyConstraint
         (foldl applyConstraint
            (foldl applyConstraint (masses hips)
               (List.filter is_distance (constraints hips)))
            (List.filter is_distance (constraints hips)))
         (List.filter is_distance (constraints hips))) hips
  ∧ ∃ m, applyConstraint (masses hips) (Distance 0 1 10 0.9) !! 0%nat = Some m
         ∧ position m = mkVec3 (0 + 0 * ((13 - 10) / 13) * 0.5 * 0.9)
                               (0 + 13 * ((13 - 10) / 13) * 0.5 * 0.9)
                               (0 + 0 * ((13 - 10) / 13) * 0.5 * 0.9).
Proof.
  destruct (applyConstraints_three_passes hips) as [Hpasses Hone].
  split; [exact Hpasses |].
  destruct (Hone (masses hips) 0%nat 1%nat
              (mkMass "hip_left" zero3 zero3 zero3 zero3 10 false "leg" "surface")
              (mkMass "waist_left" (mkVec3 0 13 0) (mkVec3 0 13 0) zero3 zero3
                      10 false "torso" "surface") 10 0.9)
    as (_ & Hmove & _); [reflexivity | reflexivity | discriminate |].
  destruct Hmove as (H1 & _); [reflexivity |].
  eexists. split; [exact H1 | reflexivity].
Defined.

(** ** Stored collision records *)

Lemma addCollisionConstraints_elem (k : nat) (ms : list Mass) (c : Constraint) :
  c ∈ addCollisionConstraints k ms
  ↔ ∃ i m, ms !! i = Some m ∧ belowGround m = true ∧ c = Collision (k + i) (-50) 0.7.
Proof.
  revert k. induction ms as [| m0 ms IH]; intros k; cbn [addCollisionConstraints].
  - split; [by intros ?%elem_of_nil | by intros (i & m & ? & _)].
  - assert (c ∈ addCollisionConstraints (S k) ms
            ↔ ∃ i m, (m0 :: ms) !! S i = Some m ∧ belowGround m = true
                     ∧ c = Collision (k + S i) (-50) 0.7) as Htail.
    { rewrite IH. by setoid_rewrite Nat.add_succ_r. }
    destruct (belowGround m0) eqn:Hb.
    + rewrite elem_of_cons, Htail. split.
      * intros [-> | (i & m & ? & ? & ?)].
        -- exists 0%nat, m0. by rewrite Nat.add_0_r.
        -- by exists (S i), m.
      * intros ([| i] & m & Hm & ? & ->).
        -- left. by rewrite Nat.add_0_r.
        -- right. by exists i, m.
    + rewrite Htail. split.
      * intros (i & m & ? & ? & ?). by exists (S i), m.
      * intros ([| i] & m & Hm & Hbm & ->).
        -- cbn in Hm. congruence.
        -- by exists i, m.
Qed.

Lemma addCollisionConstraints_length (k : nat) (ms : list Mass) :
  length (addCollisionConstraints k ms) = length (List.filter belowGround ms).
Proof.
  revert k. induction ms as [| m ms IH]; intros k; [done |].
  cbn [addCollisionConstraints List.filter].
  destruct (belowGround m); cbn [length]; by rewrite IH.
Qed.

Lemma addCollisionConstraints_no_distance (k : nat) (ms : list Mass) :
  List.filter is_distance (addCollisionConstraints k ms) = [].
Proof.
  revert k. induction ms as [| m ms IH]; intros k; [done |].
  cbn [addCollisionConstraints]. destruct (belowGround m); [cbn |]; apply IH.
Qed.

Lemma jointConstraintOf_distance (ms : list Mass) (row : string * string * float)
    (c : Constraint) :
  jointConstraintOf ms row = Some c → is_distance c = true.
Proof.
  destruct row as [[id1 id2] d]. unfold jointConstraintOf.
  destruct (find id1 ms) as [[i1 ?] |]; [| done].
  destruct (find id2 ms) as [[i2 ?] |]; [| done].
  by intros [= <-].
Qed.

Lemma addJointConstraints_distance (ms : list Mass) :
  List.filter is_distance (addJointConstraints ms) = addJointConstraints ms.
Proof.
  unfold addJointConstraints.
  induction jointConstraintTable as [| row rows IH]; [done |].
  cbn [omap list_omap]. fold (omap (jointConstraintOf ms) rows).
  destruct (jointConstraintOf ms row) as [c |] eqn:Hc; [| apply IH].
  cbn [List.filter]. rewrite (jointConstraintOf_distance ms row c Hc).
  f_equal. apply IH.
Qed.

Lemma constraints_parsed (meshData : MeshData) (e0 : PhysicsEngine) :
  let ms := masses (parsePhysicsData meshData e0) in
  List.filter is_distance (constraints (parsePhysicsData meshData e0))
  = (if meshJointConstraints meshData then addJointConstraints ms else []).
Proof.
  cbn [parsePhysicsData masses constraints].
  rewrite List.filter_app, addCollisionConstraints_no_distance, app_nil_r.
  destruct (meshJointConstraints meshData); [apply addJointConstraints_distance | done].
Qed.

(** The step reads [constraints] in the relaxation loop only, and there
    only the distance records. *)
Lemma update_ignores_collision_records (deltaTime : option float) (e : PhysicsEngine) :
  masses (fst (update deltaTime
                 (set_constraints (List.filter is_distance (constraints e)) e)))
  = masses (fst (update deltaTime e)).
Proof.
  unfold update. cbn [enabled timeStep set_constraints].
  destruct (negb (enabled e) || (default (timeStep e) deltaTime <=? 0)); [done |].
  cbn [fst]. unfold clearForces, handleCollisions, applyConstraints, integrate,
    applyForces, set_masses.
  unfold set_constraints. cbn [masses constraints gravity damping springs forLoop].
  by rewrite !relax_filter.
Qed.

(** C4, as the code has it: construction pushes one [collision] record,
    with [groundY = -50] and [restitution = 0.7], on [constraints] for every
    non-fixed mass that starts below [-50], and for no other mass; the
    count reported by [getPhysicsData] includes these records; the step
    never reads them, so that removing them changes no step. *)
Theorem collision_records_stored_but_inert (meshData : MeshData) (e0 : PhysicsEngine) :
  let e := parsePhysicsData meshData e0 in
  (∀ c, c ∈ constraints e ∧ is_distance c = false
        ↔ ∃ i m, masses e !! i = Some m ∧ fixed m = false
                 ∧ (y (position m) <? -50) = true ∧ c = Collision i (-50) 0.7)
  ∧ constraintCount (getPhysicsData e)
    = (length (List.filter is_distance (constraints e))
       + length (List.filter belowGround (masses e)))%nat
  ∧ ∀ deltaTime e',
      masses (fst (update deltaTime
                     (set_constraints (List.filter is_distance (constraints e')) e')))
      = masses (fst (update deltaTime e')).
Proof.
  intros e. split; [| split].
  - intros c. unfold e. cbn [parsePhysicsData masses constraints].
    set (ms := massOfVertex <$> vertices meshData).
    set (joints := if meshJointConstraints meshData then addJointConstraints ms else []).
    assert (∀ c', c' ∈ joints → is_distance c' = true) as Hjoints.
    { intros c'. unfold joints. destruct (meshJointConstraints meshData).
      - unfold addJointConstraints. intros (row & _ & Hrow)%list_elem_of_omap.
        by apply jointConstraintOf_distance in Hrow.
      - by intros ?%elem_of_nil. }
    assert (c ∈ addCollisionConstraints 0 ms
            ↔ ∃ i m, ms !! i = Some m ∧ fixed m = false
                     ∧ (y (position m) <? -50) = true ∧ c = Collision i (-50) 0.7)
      as Hground.
    { rewrite addCollisionConstraints_elem. unfold belowGround.
      split.
      - intros (i & m & Hm & [Hf Hy]%andb_true_iff & ->).
        apply negb_true_iff in Hf. by exists i, m.
      - intros (i & m & Hm & Hf & Hy & ->). exists i, m.
        by rewrite Hf, Hy. }
    rewrite elem_of_app. split.
    + intros [[Hc | Hc] Hnd]; [| by apply Hground].
      apply Hjoints in Hc. congruence.
    + intros Hc. split; [right; by apply Hground |].
      by destruct Hc as (i & m & _ & _ & _ & ->).
  - subst e. unfold getPhysicsData. cbn [constraintCount].
    rewrite (constraints_parsed meshData e0).
    cbn [parsePhysicsData masses constraints].
    rewrite length_app, addCollisionConstraints_length. done.
  - intros deltaTime e'. apply update_ignores_collision_records.
Qed.

(** C4, as stated, fails: a free vertex that starts below the ground plane
    leaves a [collision] record on [constraints], and [constraintCount]
    counts it. *)
Lemma collision_record_counterexample :
  constraints (init (Some sunkenMesh) constructor) = [Collision 0 (-50) 0.7]
  ∧ constraintCount (getPhysicsData (init (Some sunkenMesh) constructor)) = 1%nat
  ∧ ¬ Forall (λ c, is_distance c = true)
        (constraints (init (Some sunkenMesh) constructor)).
Proof.
  split; [reflexivity | split; [reflexivity |]].
  intros H. apply Forall_cons_1 in H. destruct H as [H _]. discriminate H.
Qed.

(** ** Fixed masses *)

Section fixed_mass.
Variables (i : nat) (m : Mass).
Hypothesis m_fixed : fixed m = true.

(** A mutation through a reference that is guarded by [!fixed] never
    reaches the fixed mass at [i]. *)
Lemma guarded_alter_fixed (ms : list Mass) (j : nat) (mj : Mass) (f : Mass → Mass) :
  ms !! i = Some m → ms !! j = Some mj →
  (if fixed mj then ms else alter f j ms) !! i = Some m.
Proof.
  intros Hi Hj. destruct (fixed mj) eqn:Hfix; [done |].
  rewrite list_lookup_alter_ne; [done |].
  intros ->. rewrite Hi in Hj. injection Hj as <-. congruence.
Qed.

Lemma applySpring_fixed (ms : list Mass) (s : Spring) :
  ms !! i = Some m → applySpring ms s !! i = Some m.
Proof.
  intros Hi. unfold applySpring.
  destruct (ms !! spring_mass1 s) as [m1 |] eqn:H1; [| done].
  destruct (ms !! spring_mass2 s) as [m2 |] eqn:H2; [| done].
  cbv zeta. destruct (_ =? 0); [done |].
  destruct (fixed m2) eqn:Hf2; [by apply guarded_alter_fixed |].
  rewrite list_lookup_alter_ne; [by apply guarded_alter_fixed |].
  intros Heq. rewrite Heq, Hi in H2. injection H2 as <-. congruence.
Qed.

Lemma applySprings_fixed (ss : list Spring) (ms : list Mass) :
  ms !! i = Some m → foldl applySpring ms ss !! i = Some m.
Proof.
  revert ms. induction ss as [| s ss IH]; intros ms Hi; [done |].
  cbn [foldl]. by apply IH, applySpring_fixed.
Qed.

Lemma applyConstraint_fixed (ms : list Mass) (c : Constraint) :
  ms !! i = Some m → applyConstraint ms c !! i = Some m.
Proof.
  intros Hi. destruct c as [i1 i2 d k |]; [| done].
  cbn [applyConstraint]. unfold applyDistanceConstraint.
  destruct (ms !! i1) as [m1 |] eqn:H1; [| done].
  destruct (ms !! i2) as [m2 |] eqn:H2; [| done].
  cbv zeta. destruct (_ =? 0); [done |].
  destruct (fixed m2) eqn:Hf2; [by apply guarded_alter_fixed |].
  rewrite list_lookup_alter_ne; [by apply guarded_alter_fixed |].
  intros Heq. rewrite Heq, Hi in H2. injection H2 as <-. congruence.
Qed.

Lemma relax_fixed (cs : list Constraint) (ms : list Mass) :
  ms !! i = Some m → foldl applyConstraint ms cs !! i = Some m.
Proof.
  revert ms. induction cs as [| c cs IH]; intros ms Hi; [done |].
  cbn [foldl]. by apply IH, applyConstraint_fixed.
Qed.

Lemma applyForces_fixed (e : PhysicsEngine) :
  masses e !! i = Some m → masses (applyForces e) !! i = Some m.
Proof.
  intros Hi. unfold applyForces. cbn [set_masses masses].
  apply applySprings_fixed. rewrite list_lookup_fmap, Hi. cbn.
  unfold applyGravity. by rewrite m_fixed.
Qed.

Lemma integrate_fixed (dt : float) (e : PhysicsEngine) :
  masses e !! i = Some m → masses (integrate dt e) !! i = Some m.
Proof.
  intros Hi. unfold integrate. cbn [set_masses masses].
  rewrite list_lookup_fmap, Hi. cbn. unfold integrateMass. by rewrite m_fixed.
Qed.

Lemma applyConstraints_fixed (e : PhysicsEngine) :
  masses e !! i = Some m → masses (applyConstraints e) !! i = Some m.
Proof.
  intros Hi. unfold applyConstraints. cbn [set_masses masses forLoop].
  by do 3 apply relax_fixed.
Qed.

Lemma handleCollisions_fixed (e : PhysicsEngine) :
  masses e !! i = Some m → masses (handleCollisions e) !! i = Some m.
Proof.
  intros Hi. unfold handleCollisions. cbn [set_masses masses].
  rewrite list_lookup_fmap, Hi. cbn. unfold collideMass. by rewrite m_fixed.
Qed.

(** A step leaves a fixed mass where it is, with the velocity it has; it
    zeroes its force accumulator when it runs. *)
Lemma update_fixed (deltaTime : option float) (e : PhysicsEngine) :
  masses e !! i = Some m →
  masses (fst (update deltaTime e)) !! i
  = Some (if negb (enabled e) || (default (timeStep e) deltaTime <=? 0)
          then m else set_force zero3 m).
Proof.
  intros Hi. unfold update. destruct (_ || _); [done |].
  cbn [fst]. unfold clearForces. cbn [set_masses masses].
  rewrite list_lookup_fmap.
  by rewrite (handleCollisions_fixed _ (applyConstraints_fixed _
                (integrate_fixed _ _ (applyForces_fixed _ Hi)))).
Qed.

Lemma found_alter_fixed (id : string) (f : Mass → Mass) (ms : list Mass)
    (j : nat) (mj : Mass) :
  ms !! i = Some m → find id ms = Some (j, mj) →
  (if negb (fixed mj) then alter f j ms else ms) !! i = Some m.
Proof.
  intros Hi [Hj _]%find_Some.
  pose proof (guarded_alter_fixed ms j mj f Hi Hj) as H.
  by destruct (fixed mj).
Qed.

Lemma applyForce_fixed (id : string) (f : Vec3) (e : PhysicsEngine) :
  masses e !! i = Some m → masses (applyForce id f e) !! i = Some m.
Proof.
  intros Hi. unfold applyForce.
  destruct (find id (masses e)) as [[j mj] |] eqn:Hfind; [| done].
  pose proof (found_alter_fixed id (addForce f) _ j mj Hi Hfind) as H.
  by destruct (negb (fixed mj)).
Qed.

Lemma applyImpulse_fixed (id : string) (v : Vec3) (e : PhysicsEngine) :
  masses e !! i = Some m → masses (applyImpulse id v e) !! i = Some m.
Proof.
  intros Hi. unfold applyImpulse.
  destruct (find id (masses e)) as [[j mj] |] eqn:Hfind; [| done].
  pose proof (found_alter_fixed id (addImpulse v) _ j mj Hi Hfind) as H.
  by destruct (negb (fixed mj)).
Qed.

Lemma applyWind_fixed (w : Vec3) (e : PhysicsEngine) :
  masses e !! i = Some m → masses (applyWind w e) !! i = Some m.
Proof.
  intros Hi. unfold applyWind. cbn [set_masses masses].
  rewrite list_lookup_fmap, Hi. cbn. unfold windMass. by rewrite m_fixed.
Qed.

Lemma applyExplosion_fixed (c : Vec3) (r f : float) (e : PhysicsEngine) :
  masses e !! i = Some m → masses (applyExplosion c r f e) !! i = Some m.
Proof.
  intros Hi. unfold applyExplosion. cbn [set_masses masses].
  rewrite list_lookup_fmap, Hi. cbn. unfold explodeMass. by rewrite m_fixed.
Qed.

(** [toggleFixed] reaches the mass at [i] only through its own id. *)
Lemma toggleFixed_other (id : string) (e : PhysicsEngine) :
  id ≠ mass_id m →
  masses e !! i = Some m → masses (fst (toggleFixed id e)) !! i = Some m.
Proof.
  intros Hid Hi. unfold toggleFixed, getMassById.
  destruct (find id (masses e)) as [[j mj] |] eqn:Hfind; [| done].
  apply find_Some in Hfind as [Hj Hidj]. cbn [fst set_masses masses].
  rewrite list_lookup_alter_ne; [done |].
  intros Heq. rewrite Heq, Hi in Hj. injection Hj as <-. congruence.
Qed.

Lemma reset_fixed (e : PhysicsEngine) :
  masses e !! i = Some m →
  masses (reset e) !! i = Some (resetMass (originalPositions e) m).
Proof.
  intros Hi. unfold reset. cbn [set_masses masses].
  by rewrite list_lookup_fmap, Hi.
Qed.

(** Every call but a reset and a toggle of this very mass. *)
Lemma exec_fixed (op : Op) (e : PhysicsEngine) :
  op ≠ OToggleFixed (mass_id m) → op ≠ OReset →
  masses e !! i = Some m →
  masses (exec e op) !! i = Some m
  ∨ masses (exec e op) !! i = Some (set_force zero3 m).
Proof.
  intros Htoggle Hreset Hi. destruct op; cbn [exec].
  - rewrite (update_fixed _ _ Hi). destruct (_ || _); [by left | by right].
  - left. by apply applyForce_fixed.
  - left. by apply applyImpulse_fixed.
  - left. by apply applyWind_fixed.
  - left. by apply applyExplosion_fixed.
  - left. apply toggleFixed_other; [congruence | done].
  - done.
  - by left.
  - by left.
  - by left.
  - by left.
  - by left.
Qed.

End fixed_mass.

Lemma exec_originalPositions (op : Op) (e : PhysicsEngine) :
  originalPositions (exec e op) = originalPositions e.
Proof. destruct op; cbn [exec]; call_cases; done. Qed.

Lemma still_clear (m : Mass) : force m = zero3 → set_force zero3 m = m.
Proof. intros <-. apply set_force_same. Qed.

Lemma still_reset (om : gmap string Vec3) (m : Mass) :
  velocity m = zero3 → force m = zero3 → om !! mass_id m = Some (position m) →
  resetMass om m = m.
Proof.
  intros Hv Hf Hom. unfold resetMass. rewrite Hom.
  destruct m as [id [px py pz] op v f w fx g t]. cbn in Hv, Hf. by subst.
Qed.

Lemma run_fixed_without_reset (i : nat) (m : Mass) (ops : list Op) (e : PhysicsEngine) :
  fixed m = true →
  Forall (λ op, op ≠ OToggleFixed (mass_id m)) ops → OReset ∉ ops →
  masses e !! i = Some m ∨ masses e !! i = Some (set_force zero3 m) →
  masses (run ops e) !! i = Some m ∨ masses (run ops e) !! i = Some (set_force zero3 m).
Proof.
  intros Hfix Hops. revert e.
  induction Hops as [| op ops Hop _ IH]; intros e Hreset Hi; [done |].
  apply not_elem_of_cons in Hreset as [Hne Hreset].
  unfold run. cbn [foldl]. apply (IH _ Hreset). destruct Hi as [Hi | Hi].
  - by apply exec_fixed.
  - right. destruct (exec_fixed i (set_force zero3 m) Hfix op e) as [H | H]; done.
Qed.

Lemma run_still (i : nat) (m : Mass) (ops : list Op) (e : PhysicsEngine) :
  fixed m = true → velocity m = zero3 → force m = zero3 →
  Forall (λ op, op ≠ OToggleFixed (mass_id m)) ops →
  (OReset ∈ ops → originalPositions e !! mass_id m = Some (position m)) →
  masses e !! i = Some m →
  masses (run ops e) !! i = Some m.
Proof.
  intros Hfix Hv Hf Hops. revert e.
  induction Hops as [| op ops Hop _ IH]; intros e Hreset Hi; [done |].
  unfold run. cbn [foldl]. apply IH.
  - rewrite exec_originalPositions. intros Hin. apply Hreset. by right.
  - assert (op = OReset ∨ op ≠ OReset) as [-> | Hne]
      by (destruct op; (by left) || (by right)).
    + cbn [exec]. rewrite (reset_fixed i m e Hi). f_equal.
      apply still_reset; [done | done |]. apply Hreset. by left.
    + destruct (exec_fixed i m Hfix op e Hop Hne Hi) as [H | H]; [done |].
      by rewrite (still_clear m Hf) in H.
Qed.

Lemma resetMass_twice (om : gmap string Vec3) (m : Mass) :
  resetMass om (resetMass om m) = resetMass om m.
Proof.
  unfold resetMass. destruct (om !! mass_id m) as [p |] eqn:Hp; cbn; by rewrite Hp.
Qed.

Lemma resetMass_clear (om : gmap string Vec3) (f : Vec3) (m : Mass) :
  resetMass om (set_force f m) = resetMass om m.
Proof. unfold resetMass. cbn. by destruct (om !! mass_id m). Qed.

Lemma resetMass_frame (om : gmap string Vec3) (m : Mass) :
  fixed (resetMass om m) = fixed m ∧ identity (resetMass om m) = identity m
  ∧ velocity (resetMass om m) = zero3 ∧ force (resetMass om m) = zero3
  ∧ position (resetMass om m) = default (position m) (om !! mass_id m).
Proof.
  unfold resetMass. destruct (om !! mass_id m) as [p |]; cbn; [| done].
  by rewrite vec3_eta.
Qed.

Lemma reset_in_or_not (ops : list Op) : OReset ∈ ops ∨ OReset ∉ ops.
Proof.
  induction ops as [| op ops [IH | IH]].
  - right. by intros ?%elem_of_nil.
  - left. by right.
  - assert (op = OReset ∨ op ≠ OReset) as [-> | Hne]
      by (destruct op; (by left) || (by right)).
    + left. by left.
    + right. intros [Heq | Hin]%elem_of_cons; [congruence | done].
Qed.

(** A fixed mass that is where [reset] puts it, with an empty accumulator,
    is not changed by any call that does not toggle it. *)
Lemma run_rest (i : nat) (r : Mass) (ops : list Op) (e : PhysicsEngine) :
  fixed r = true → force r = zero3 → resetMass (originalPositions e) r = r →
  Forall (λ op, op ≠ OToggleFixed (mass_id r)) ops →
  masses e !! i = Some r →
  masses (run ops e) !! i = Some r.
Proof.
  intros Hfix Hf Hrest Hops. revert e Hrest.
  induction Hops as [| op ops Hop _ IH]; intros e Hrest Hi; [done |].
  unfold run. cbn [foldl]. apply IH.
  - by rewrite exec_originalPositions.
  - assert (op = OReset ∨ op ≠ OReset) as [-> | Hne]
      by (destruct op; (by left) || (by right)).
    + cbn [exec]. by rewrite (reset_fixed i r e Hi), Hrest.
    + destruct (exec_fixed i r Hfix op e Hop Hne Hi) as [H | H]; [done |].
      by rewrite (still_clear r Hf) in H.
Qed.

(** Once a reset has been among the calls, the fixed mass is the mass
    [reset] makes of it. *)
Lemma run_fixed_with_reset (i : nat) (m : Mass) (ops : list Op) (e : PhysicsEngine) :
  fixed m = true →
  Forall (λ op, op ≠ OToggleFixed (mass_id m)) ops → OReset ∈ ops →
  masses e !! i = Some m ∨ masses e !! i = Some (set_force zero3 m) →
  masses (run ops e) !! i = Some (resetMass (originalPositions e) m).
Proof.
  intros Hfix Hops. revert e.
  induction Hops as [| op ops Hop Hops IH]; intros e Hin Hi;
    [by apply elem_of_nil in Hin |].
  unfold run. cbn [foldl]. fold (run ops (exec e op)).
  assert (op = OReset ∨ op ≠ OReset) as [-> | Hne]
    by (destruct op; (by left) || (by right)).
  - cbn [exec].
    destruct (resetMass_frame (originalPositions e) m) as (Hrfix & Hrid & _ & Hrf & _).
    apply run_rest.
    + by rewrite Hrfix.
    + exact Hrf.
    + apply resetMass_twice.
    + replace (mass_id (resetMass (originalPositions e) m)) with (mass_id m); [done |].
      unfold identity in Hrid. by injection Hrid.
    + destruct Hi as [Hi | Hi]; rewrite (reset_fixed i _ e Hi); [done |].
      by rewrite resetMass_clear.
  - rewrite <- (exec_originalPositions op e). apply IH.
    + by apply elem_of_cons in Hin as [<- | Hin].
    + destruct Hi as [Hi | Hi]; [by apply exec_fixed |].
      right. destruct (exec_fixed i (set_force zero3 m) Hfix op e) as [H | H]; done.
Qed.

(** C2, as the code has it: a sequence of calls that does not toggle a
    fixed mass leaves it fixed, with its identity; without a reset in the
    sequence its position and its velocity stay what they were and its
    force stays what it was or is zeroed by a step; with a reset in the
    sequence its velocity and force end at zero and its position at the
    snapshot kept for its id; so if its velocity and force are zero they
    stay zero, and its position stays the same as long as every reset finds
    it at the snapshot kept for its id. *)
Theorem fixed_mass_is_kept (ops : list Op) (e : PhysicsEngine) (i : nat) (m : Mass) :
  masses e !! i = Some m → fixed m = true →
  Forall (λ op, op ≠ OToggleFixed (mass_id m)) ops →
  (OReset ∉ ops →
     ∃ m', masses (run ops e) !! i = Some m' ∧ fixed m' = true
           ∧ position m' = position m ∧ velocity m' = velocity m
           ∧ (force m' = force m ∨ force m' = zero3))
  ∧ (velocity m = zero3 → force m = zero3 →
     (OReset ∈ ops → originalPositions e !! mass_id m = Some (position m)) →
     masses (run ops e) !! i = Some m)
  ∧ (OReset ∈ ops →
     ∃ m', masses (run ops e) !! i = Some m' ∧ fixed m' = true
           ∧ velocity m' = zero3 ∧ force m' = zero3
           ∧ position m' = default (position m) (originalPositions e !! mass_id m))
  ∧ (∃ m', masses (run ops e) !! i = Some m' ∧ fixed m' = true
           ∧ identity m' = identity m
           ∧ (velocity m = zero3 → force m = zero3 →
              velocity m' = zero3 ∧ force m' = zero3)).
Proof.
  intros Hi Hfix Hops.
  assert (OReset ∉ ops →
          ∃ m', masses (run ops e) !! i = Some m' ∧ fixed m' = true
                ∧ position m' = position m ∧ velocity m' = velocity m
                ∧ (force m' = force m ∨ force m' = zero3)
                ∧ identity m' = identity m) as Hquiet.
  { intros Hreset.
    destruct (run_fixed_without_reset i m ops e Hfix Hops Hreset (or_introl Hi))
      as [H | H]; eexists; (split; [exact H |]); cbn; auto 10. }
  assert (OReset ∈ ops →
          ∃ m', masses (run ops e) !! i = Some m' ∧ fixed m' = true
                ∧ velocity m' = zero3 ∧ force m' = zero3
                ∧ position m' = default (position m) (originalPositions e !! mass_id m)
                ∧ identity m' = identity m) as Hreset.
  { intros Hin. exists (resetMass (originalPositions e) m).
    destruct (resetMass_frame (originalPositions e) m) as (Hrfix & Hrid & Hrv & Hrf & Hrp).
    split; [by apply run_fixed_with_reset; auto |].
    rewrite Hrfix. auto 10. }
  split; [| split; [| split]].
  - intros Hnin. destruct (Hquiet Hnin) as (m' & ? & ? & ? & ? & ? & _). by exists m'.
  - intros Hv Hf Hsnap. by apply run_still.
  - intros Hin. destruct (Hreset Hin) as (m' & ? & ? & ? & ? & ? & _). by exists m'.
  - destruct (reset_in_or_not ops) as [Hin | Hnin].
    + destruct (Hreset Hin) as (m' & ? & ? & ? & ? & _ & ?). by exists m'.
    + destruct (Hquiet Hnin) as (m' & ? & ? & _ & Hv' & Hf' & ?). exists m'.
      repeat split; try done; [by rewrite Hv' | destruct Hf' as [-> | ->]; done].
Qed.

Lemma fixed_mass_is_kept_witness :
  masses (run busyDay scenario) !! 0%nat = Some massA
  ∧ (∃ m', masses (run [OUpdate None; OApplyWind (mkVec3 1 1 1); OUpdate (Some 2)] pinned)
             !! 1%nat = Some m'
           ∧ fixed m' = true ∧ position m' = mkVec3 0 (-10) 0
           ∧ velocity m' = mkVec3 1 0 0)
  ∧ (∃ m', masses (run [OApplyWind (mkVec3 1 1 1); OReset; OUpdate (Some 2)] pinned)
             !! 1%nat = Some m'
           ∧ fixed m' = true ∧ velocity m' = zero3 ∧ force m' = zero3
           ∧ position m' = mkVec3 0 (-10) 0).
Proof.
  split; [| split].
  - apply (proj1 (proj2 (fixed_mass_is_kept busyDay scenario 0 massA eq_refl eq_refl
                           ltac:(repeat constructor; discriminate))));
      [reflexivity | reflexivity | intros _; reflexivity].
  - destruct (proj1 (fixed_mass_is_kept
                       [OUpdate None; OApplyWind (mkVec3 1 1 1); OUpdate (Some 2)]
                       pinned 1 pinnedB ltac:(vm_compute; reflexivity) eq_refl
                       ltac:(repeat constructor; discriminate)))
      as (m' & Hm' & Hfix & Hp & Hv & _).
    + intros Hin. repeat (apply elem_of_cons in Hin as [Hin | Hin]; [discriminate |]).
      by apply elem_of_nil in Hin.
    + exists m'. repeat split; assumption.
  - destruct (proj1 (proj2 (proj2 (fixed_mass_is_kept
                       [OApplyWind (mkVec3 1 1 1); OReset; OUpdate (Some 2)]
                       pinned 1 pinnedB ltac:(vm_compute; reflexivity) eq_refl
                       ltac:(repeat constructor; discriminate)))))
      as (m' & Hm' & Hfix & Hv & Hf & Hp).
    + right. left.
    + exists m'. repeat split; assumption.
Defined.

Lemma float_neq (a b : float) : (a =? a) = true → (a =? b) = false → a ≠ b.
Proof. intros Ha Hab ->. congruence. Qed.

(** C2, as stated, fails: [toggleFixed] fixes a moving mass without
    stopping it, and [reset] moves a fixed mass back to its snapshot. *)
Lemma fixed_mass_counterexample :
  (∃ m, masses (run [OApplyImpulse "B" (mkVec3 10 0 0); OToggleFixed "B"] scenario)
          !! 1%nat = Some m
        ∧ fixed m = true ∧ velocity m ≠ zero3)
  ∧ (∃ m m', masses (run [OUpdate None; OToggleFixed "B"] scenario) !! 1%nat = Some m
             ∧ fixed m = true
             ∧ masses (run [OUpdate None; OToggleFixed "B"; OReset] scenario) !! 1%nat
               = Some m'
             ∧ fixed m' = true ∧ position m' ≠ position m).
Proof.
  split.
  - eexists. split; [vm_compute; reflexivity |]. split; [reflexivity |].
    intros H. apply (f_equal x) in H. revert H.
    apply float_neq; vm_compute; reflexivity.
  - eexists _, _. split; [vm_compute; reflexivity |]. split; [reflexivity |].
    split; [vm_compute; reflexivity |]. split; [reflexivity |].
    intros H. apply (f_equal y) in H. revert H.
    apply float_neq; vm_compute; reflexivity.
Qed.

(** ** What no call changes: the identity of a mass *)

Create HintDb stable.

Section stable.
Variable Q : Mass → Prop.
Hypothesis Q_position : ∀ p m, Q m → Q (set_position p m).
Hypothesis Q_velocity : ∀ v m, Q m → Q (set_velocity v m).
Hypothesis Q_force : ∀ f m, Q m → Q (set_force f m).
Hypothesis Q_fixed : ∀ b m, Q m → Q (set_fixed b m).

Local Hint Resolve Q_position Q_velocity Q_force Q_fixed : stable.

Lemma fmap_stable (f : Mass → Mass) (ms : list Mass) :
  (∀ m, Q m → Q (f m)) → Forall Q ms → Forall Q (f <$> ms).
Proof. intros Hf Hms. apply Forall_fmap. by eapply Forall_impl. Qed.

Lemma guarded_alter_stable (f : Mass → Mass) (b : bool) (j : nat) (ms : list Mass) :
  (∀ m, Q m → Q (f m)) → Forall Q ms → Forall Q (if b then ms else alter f j ms).
Proof. intros Hf Hms. destruct b; [done |]. apply Forall_alter; auto. Qed.

Lemma applySpring_stable (ms : list Mass) (s : Spring) :
  Forall Q ms → Forall Q (applySpring ms s).
Proof.
  intros Hms. unfold applySpring.
  destruct (ms !! spring_mass1 s) as [m1 |]; [| done].
  destruct (ms !! spring_mass2 s) as [m2 |]; [| done].
  cbv zeta. destruct (_ =? 0); [done |].
  apply guarded_alter_stable; [unfold subForce; auto with stable |].
  apply guarded_alter_stable; [unfold addForce; auto with stable | done].
Qed.

Lemma applyConstraint_stable (ms : list Mass) (c : Constraint) :
  Forall Q ms → Forall Q (applyConstraint ms c).
Proof.
  intros Hms. destruct c as [i1 i2 d k |]; [| done].
  cbn [applyConstraint]. unfold applyDistanceConstraint.
  destruct (ms !! i1) as [m1 |]; [| done].
  destruct (ms !! i2) as [m2 |]; [| done].
  cbv zeta. destruct (_ =? 0); [done |].
  apply guarded_alter_stable; [unfold subPosition; auto with stable |].
  apply guarded_alter_stable; [unfold addPosition; auto with stable | done].
Qed.

Lemma foldl_stable {A : Type} (f : list Mass → A → list Mass) (l : list A)
    (ms : list Mass) :
  (∀ ms a, Forall Q ms → Forall Q (f ms a)) → Forall Q ms → Forall Q (foldl f ms l).
Proof.
  intros Hf. revert ms. induction l as [| a l IH]; intros ms Hms; [done |].
  cbn [foldl]. auto.
Qed.

Lemma update_stable (deltaTime : option float) (e : PhysicsEngine) :
  Forall Q (masses e) → Forall Q (masses (fst (update deltaTime e))).
Proof.
  intros Hms. unfold update. destruct (_ || _); [done |].
  cbn [fst]. unfold clearForces, handleCollisions, applyConstraints, integrate,
    applyForces. cbn [set_masses masses forLoop].
  apply fmap_stable; [auto with stable |].
  apply fmap_stable.
  { intros m Hm. unfold collideMass. destruct (_ && _); auto with stable. }
  do 3 (apply foldl_stable; [apply applyConstraint_stable |]).
  apply fmap_stable.
  { intros m Hm. unfold integrateMass. destruct (fixed m); auto with stable. }
  apply foldl_stable; [apply applySpring_stable |].
  apply fmap_stable; [| done].
  intros m Hm. unfold applyGravity. destruct (fixed m); auto with stable.
Qed.

Lemma exec_stable (op : Op) (e : PhysicsEngine) :
  Forall Q (masses e) → Forall Q (masses (exec e op)).
Proof.
  intros Hms. destruct op; cbn [exec]; try done.
  - by apply update_stable.
  - unfold applyForce. destruct (find _ _) as [[j mj] |]; [| done].
    destruct (negb (fixed mj)); [| done]. cbn [set_masses masses].
    apply Forall_alter; [done |]. unfold addForce. auto with stable.
  - unfold applyImpulse. destruct (find _ _) as [[j mj] |]; [| done].
    destruct (negb (fixed mj)); [| done]. cbn [set_masses masses].
    apply Forall_alter; [done |]. unfold addImpulse. auto with stable.
  - unfold applyWind. cbn [set_masses masses]. apply fmap_stable; [| done].
    intros m Hm. unfold windMass. destruct (negb (fixed m)); auto with stable.
  - unfold applyExplosion. cbn [set_masses masses]. apply fmap_stable; [| done].
    intros m Hm. unfold explodeMass. destruct (negb (fixed m)); [| done].
    cbv zeta. destruct (_ && _); auto with stable.
  - unfold toggleFixed, getMassById. destruct (find _ _) as [[j mj] |]; [| done].
    cbn [fst set_masses masses]. apply Forall_alter; auto with stable.
  - unfold reset. cbn [set_masses masses]. apply fmap_stable; [| done].
    intros m Hm. unfold resetMass.
    destruct (originalPositions e !! mass_id m); auto with stable.
Qed.

End stable.

Lemma recordOriginal_other (vs : list Vertex) (om : gmap string Vec3) (id : string) :
  id ∉ vertex_id <$> vs → foldl recordOriginal om vs !! id = om !! id.
Proof.
  revert om. induction vs as [| v vs IH]; intros om Hid; [done |].
  cbn in Hid. apply not_elem_of_cons in Hid as [Hne Hid].
  cbn [foldl]. rewrite (IH _ Hid). unfold recordOriginal.
  by rewrite lookup_insert_ne.
Qed.

Lemma recordOriginal_lookup (vs : list Vertex) (om : gmap string Vec3) (v : Vertex) :
  NoDup (vertex_id <$> vs) → v ∈ vs →
  foldl recordOriginal om vs !! vertex_id v
  = Some (mkVec3 (vertex_x v) (vertex_y v) (vertex_z v)).
Proof.
  revert om. induction vs as [| v0 vs IH]; intros om Hnd Hv.
  - by apply elem_of_nil in Hv.
  - cbn in Hnd. apply NoDup_cons in Hnd as [Hfresh Hnd]. cbn [foldl].
    apply elem_of_cons in Hv as [-> | Hv]; [| by apply IH].
    rewrite (recordOriginal_other _ _ _ Hfresh). unfold recordOriginal.
    by rewrite lookup_insert_eq.
Qed.

(** Construction from a topology with pairwise distinct vertex ids
    records every mass under its id. *)
Lemma parsePhysicsData_snapshot_ok (meshData : MeshData) (e : PhysicsEngine) :
  NoDup (vertex_id <$> vertices meshData) → snapshot_ok (parsePhysicsData meshData e).
Proof.
  intros Hnd. unfold snapshot_ok. cbn [parsePhysicsData masses originalPositions].
  apply Forall_fmap, Forall_forall. intros v Hv. cbn.
  by apply recordOriginal_lookup.
Qed.

(** No later call breaks that. *)
Lemma run_snapshot_ok (ops : list Op) (e : PhysicsEngine) :
  snapshot_ok e → snapshot_ok (run ops e).
Proof.
  revert e. induction ops as [| op ops IH]; intros e He; [done |].
  unfold run. cbn [foldl]. apply IH. unfold snapshot_ok.
  rewrite exec_originalPositions. by apply exec_stable.
Qed.

Lemma recordOriginal_is_Some (vs : list Vertex) (om : gmap string Vec3) (id : string) :
  is_Some (om !! id) ∨ id ∈ vertex_id <$> vs →
  is_Some (foldl recordOriginal om vs !! id).
Proof.
  revert om. induction vs as [| v vs IH]; intros om Hid; cbn [foldl].
  - destruct Hid as [Hid | Hid]; [done | by apply elem_of_nil in Hid].
  - apply IH. unfold recordOriginal. rewrite lookup_insert_is_Some'.
    destruct Hid as [Hid | Hid]; [by left; right |].
    cbn in Hid. apply elem_of_cons in Hid as [-> | Hid]; [left; by left | by right].
Qed.

(** Construction records every mass, whatever the ids are, and no later
    call removes an entry. *)
Lemma parsePhysicsData_recorded (meshData : MeshData) (e : PhysicsEngine) :
  recorded (parsePhysicsData meshData e).
Proof.
  unfold recorded. cbn [parsePhysicsData masses originalPositions].
  apply Forall_fmap, Forall_forall. intros v Hv. cbn.
  apply recordOriginal_is_Some. right. by apply list_elem_of_fmap_2.
Qed.

Lemma run_recorded (ops : list Op) (e : PhysicsEngine) :
  recorded e → recorded (run ops e).
Proof.
  revert e. induction ops as [| op ops IH]; intros e He; [done |].
  unfold run. cbn [foldl]. apply IH. unfold recorded.
  rewrite exec_originalPositions. by apply exec_stable.
Qed.

(** ** Reset *)

(** C8: [reset] puts every mass back at the position recorded for it at
    construction, which is its own [originalPosition] when the ids are
    pairwise distinct, and zeroes its velocity and its force; it changes
    nothing else in a mass and nothing else in the engine (enabled,
    gravity, stiffness and damping included), and a second [reset] changes
    nothing. *)
Theorem reset_restores_and_is_idempotent (e : PhysicsEngine) :
  (∀ i m p, masses e !! i = Some m → originalPositions e !! mass_id m = Some p →
     masses (reset e) !! i
     = Some (set_force zero3 (set_velocity zero3 (set_position p m))))
  ∧ (snapshot_ok e →
     ∀ i m, masses e !! i = Some m →
       masses (reset e) !! i
       = Some (set_force zero3
                 (set_velocity zero3 (set_position (originalPosition m) m))))
  ∧ length (masses (reset e)) = length (masses e)
  ∧ Forall (λ m, velocity m = zero3 ∧ force m = zero3) (masses (reset e))
  ∧ enabled (reset e) = enabled e ∧ gravity (reset e) = gravity e
  ∧ stiffness (reset e) = stiffness e ∧ damping (reset e) = damping e
  ∧ reset e = set_masses (masses (reset e)) e
  ∧ reset (reset e) = reset e.
Proof.
  assert (∀ i m p, masses e !! i = Some m → originalPositions e !! mass_id m = Some p →
            masses (reset e) !! i
            = Some (set_force zero3 (set_velocity zero3 (set_position p m)))) as Hmap.
  { intros i m p Hm Hp. unfold reset. cbn [set_masses masses].
    rewrite list_lookup_fmap, Hm. cbn [fmap option_fmap option_map]. f_equal.
    unfold resetMass. by rewrite Hp, vec3_eta. }
  split; [exact Hmap |]. split; [| repeat split].
  - intros Hok i m Hm. apply (Hmap i m _ Hm).
    exact (Forall_lookup_1 _ _ _ _ Hok Hm).
  - unfold reset. cbn [set_masses masses]. apply length_fmap.
  - unfold reset. cbn [set_masses masses]. apply Forall_fmap, Forall_true.
    by intros m.
  - unfold reset, set_masses. cbn [masses originalPositions]. f_equal.
    rewrite <- list_fmap_compose. apply list_fmap_ext. intros _ m _.
    apply resetMass_twice.
Qed.

Lemma scenario_snapshot_ok : snapshot_ok scenario.
Proof.
  change (snapshot_ok (parsePhysicsData scenarioMesh constructor)).
  apply parsePhysicsData_snapshot_ok.
  apply (bool_decide_unpack _). vm_compute. exact I.
Qed.

Lemma reset_restores_and_is_idempotent_witness :
  masses (reset worn) !! 1%nat = Some massB ∧ reset (reset worn) = reset worn.
Proof.
  destruct (reset_restores_and_is_idempotent worn)
    as (_ & Hmass & _ & _ & _ & _ & _ & _ & _ & Hidem).
  split; [| exact Hidem].
  destruct (masses worn !! 1%nat) as [m |] eqn:Hm;
    [| vm_compute in Hm; discriminate Hm].
  rewrite (Hmass (run_snapshot_ok _ scenario scenario_snapshot_ok) 1%nat m Hm).
  vm_compute in Hm. injection Hm as <-. reflexivity.
Defined.

(** Where two vertices share an id, the entry of the later one is the
    one kept, and [reset] puts both masses there. *)
Example reset_shared_id :
  position <$> masses (init (Some twinMesh) constructor) = [mkVec3 0 1 0; mkVec3 0 2 0]
  ∧ position <$> masses (reset (init (Some twinMesh) constructor))
    = [mkVec3 0 2 0; mkVec3 0 2 0].
Proof. split; vm_compute; reflexivity. Qed.

(** ** Integration and free fall *)

Lemma jointConstraintTable_distinct :
  Forall (λ row, row.1.1 ≠ row.1.2) jointConstraintTable.
Proof. repeat constructor; discriminate. Qed.

(** Construction only builds distance constraints between two different
    masses, and no call changes [constraints]. *)
Lemma parsePhysicsData_constraints_wf (meshData : MeshData) (e : PhysicsEngine) :
  constraints_wf (parsePhysicsData meshData e).
Proof.
  unfold constraints_wf. cbn [parsePhysicsData constraints].
  apply Forall_app. split.
  - destruct (meshJointConstraints meshData); [| constructor].
    apply Forall_forall. intros c (row & Hrow & Hc)%list_elem_of_omap.
    pose proof (proj1 (Forall_forall _ _) jointConstraintTable_distinct row Hrow) as Hne.
    destruct row as [[id1 id2] d]. unfold jointConstraintOf in Hc.
    destruct (find id1 _) as [[i1 m1] |] eqn:H1; [| done].
    destruct (find id2 _) as [[i2 m2] |] eqn:H2; [| done].
    injection Hc as <-. intros ->.
    apply find_Some in H1 as [H1 Hid1]. apply find_Some in H2 as [H2 Hid2].
    rewrite H1 in H2. injection H2 as ->. cbn in Hne. congruence.
  - apply Forall_forall. intros c Hc.
    apply addCollisionConstraints_elem in Hc as (i & m & _ & _ & ->). done.
Qed.

Lemma exec_constraints (op : Op) (e : PhysicsEngine) :
  constraints (exec e op) = constraints e.
Proof. destruct op; cbn [exec]; call_cases; done. Qed.

Lemma run_constraints_wf (ops : list Op) (e : PhysicsEngine) :
  constraints_wf e → constraints_wf (run ops e).
Proof.
  revert e. induction ops as [| op ops IH]; intros e He; [done |].
  unfold run. cbn [foldl]. apply IH. unfold constraints_wf.
  by rewrite exec_constraints.
Qed.

(** With one mass in the store no distance constraint has two ends. *)
Lemma relax_single (cs : list Constraint) (m : Mass) :
  Forall (λ c, match c with
               | Distance i1 i2 _ _ => i1 ≠ i2
               | Collision _ _ _ => True
               end) cs →
  foldl applyConstraint [m] cs = [m].
Proof.
  induction 1 as [| c cs Hc _ IH]; [done |].
  cbn [foldl]. destruct c as [i1 i2 d k |]; [| exact IH].
  cbn [applyConstraint]. unfold applyDistanceConstraint.
  destruct i1 as [| i1], i2 as [| i2]; cbn [lookup list_lookup]; try exact IH.
  by destruct Hc.
Qed.

Lemma integrate_law (e : PhysicsEngine) (dt : float) (i : nat) (m : Mass) :
  masses e !! i = Some m → fixed m = false →
  ∃ m', masses (integrate dt e) !! i = Some m'
    ∧ velocity m' = mkVec3 ((x (velocity m) + x (force m) / mass m * dt) * damping e)
                           ((y (velocity m) + y (force m) / mass m * dt) * damping e)
                           ((z (velocity m) + z (force m) / mass m * dt) * damping e)
    ∧ position m' = mkVec3 (x (position m) + x (velocity m') * dt)
                           (y (position m) + y (velocity m') * dt)
                           (z (position m) + z (velocity m') * dt)
    ∧ m' = set_position (position m') (set_velocity (velocity m') m).
Proof.
  intros Hm Hfree. exists (integrateMass (damping e) dt m). split.
  - unfold integrate. cbn [set_masses masses]. by rewrite list_lookup_fmap, Hm.
  - unfold integrateMass. rewrite Hfree. done.
Qed.

(** One step of an engine that holds one free mass and no spring. *)
Lemma single_step (e : PhysicsEngine) (m : Mass) (dt : float) :
  masses e = [m] → springs e = [] → constraints_wf e →
  enabled e = true → (dt <=? 0) = false →
  fst (update (Some dt) e)
  = set_masses
      [ set_force zero3
          (collideMass (integrateMass (damping e) dt (applyGravity (gravity e) m))) ] e.
Proof.
  intros Hms Hss Hcs Hen Hdt. unfold update.
  change (default (timeStep e) (Some dt)) with dt. rewrite Hen, Hdt.
  cbn [negb orb fst].
  unfold clearForces, handleCollisions, applyConstraints, integrate, applyForces,
    set_masses.
  cbn [masses constraints gravity damping springs enabled stiffness timeStep
       originalPositions forLoop].
  rewrite Hms, Hss. cbn [foldl fmap list_fmap].
  by rewrite !(relax_single _ _ Hcs).
Qed.

Lemma applyGravity_free (g : float) (m : Mass) :
  fixed m = false →
  applyGravity g m
  = set_force (mkVec3 (x (force m)) (y (force m) - mass m * g) (z (force m))) m.
Proof. intros Hfree. unfold applyGravity. by rewrite Hfree. Qed.

Lemma integrateMass_free (d dt : float) (m : Mass) :
  fixed m = false →
  let v := mkVec3 ((x (velocity m) + x (force m) / mass m * dt) * d)
                  ((y (velocity m) + y (force m) / mass m * dt) * d)
                  ((z (velocity m) + z (force m) / mass m * dt) * d) in
  let p := mkVec3 (x (position m) + x v * dt) (y (position m) + y v * dt)
                  (z (position m) + z v * dt) in
  integrateMass d dt m = set_position p (set_velocity v m).
Proof. intros Hfree. unfold integrateMass. by rewrite Hfree. Qed.

Lemma collideMass_frame (m : Mass) :
  fixed (collideMass m) = fixed m ∧ mass (collideMass m) = mass m.
Proof. unfold collideMass. by destruct (_ && _). Qed.

Lemma fallen_mass (g d dt : float) (m : Mass) :
  fixed m = false →
  let m' := set_force zero3 (collideMass (integrateMass d dt (applyGravity g m))) in
  fixed m' = false ∧ force m' = zero3 ∧ mass m' = mass m.
Proof.
  intros Hfree m'. unfold m'. rewrite (applyGravity_free g m Hfree).
  rewrite integrateMass_free by done.
  cbn [fixed force mass set_force]. by rewrite !(proj1 (collideMass_frame _)),
    !(proj2 (collideMass_frame _)).
Qed.

(** However often it has been stepped, an engine with one free mass and no
    spring still is one, and the force accumulator is zero between steps. *)
Lemma steps_single (e : PhysicsEngine) (m : Mass) (dt : float) (n : nat) :
  masses e = [m] → springs e = [] → constraints_wf e →
  fixed m = false → force m = zero3 → enabled e = true → (dt <=? 0) = false →
  ∃ mn, steps n dt e = set_masses [mn] e
        ∧ fixed mn = false ∧ force mn = zero3 ∧ mass mn = mass m.
Proof.
  intros Hms Hss Hcs Hfree Hforce Hen Hdt. induction n as [| n (mn & Hn & Hfn & Hzn & Hwn)].
  - exists m. by rewrite <- Hms, set_masses_same.
  - cbn [steps]. rewrite Hn.
    rewrite (single_step (set_masses [mn] e) mn dt eq_refl Hss Hcs Hen Hdt).
    eexists. split; [reflexivity |].
    destruct (fallen_mass (gravity e) (damping e) dt mn Hfn) as (? & ? & ?).
    cbn [set_masses gravity damping]. repeat split; congruence.
Qed.

(** C1, as the code has it. The integration phase of a step applies
    [velocity += (force / mass) * dt], [velocity *= damping],
    [position += velocity * dt] to every non-fixed mass. For one free mass
    without springs whose accumulator starts at zero, step [n + 1] yields
    [vy' = (vy + a * dt) * damping] and [y' = y + vy' * dt], with
    [a = (0 - mass * g) / mass], whenever [y'] is not below the ground
    plane; a mass that would end below [-50] is clamped instead. *)
Theorem integration_and_free_fall :
  (∀ (e : PhysicsEngine) (dt : float),
     enabled e = true → (dt <=? 0) = false →
     fst (update (Some dt) e)
     = clearForces (handleCollisions (applyConstraints (integrate dt (applyForces e)))))
  ∧ (∀ (e : PhysicsEngine) (dt : float) (i : nat) (m : Mass),
     masses e !! i = Some m → fixed m = false →
     ∃ m', masses (integrate dt e) !! i = Some m'
       ∧ velocity m' = mkVec3 ((x (velocity m) + x (force m) / mass m * dt) * damping e)
                              ((y (velocity m) + y (force m) / mass m * dt) * damping e)
                              ((z (velocity m) + z (force m) / mass m * dt) * damping e)
       ∧ position m' = mkVec3 (x (position m) + x (velocity m') * dt)
                              (y (position m) + y (velocity m') * dt)
                              (z (position m) + z (velocity m') * dt)
       ∧ m' = set_position (position m') (set_velocity (velocity m') m))
  ∧ (∀ (e : PhysicsEngine) (m : Mass) (dt : float) (n : nat),
     masses e = [m] → springs e = [] → constraints_wf e →
     fixed m = false → force m = zero3 → enabled e = true → (dt <=? 0) = false →
     ∃ mn mn1, masses (steps n dt e) = [mn] ∧ masses (steps (S n) dt e) = [mn1]
       ∧ let a := (0 - mass m * gravity e) / mass m in
         let vy := (y (velocity mn) + a * dt) * damping e in
         let py := y (position mn) + vy * dt in
         ((py <? -50) = false → y (velocity mn1) = vy ∧ y (position mn1) = py)).
Proof.
  split; [| split].
  - intros e dt Hen Hdt. unfold update.
    change (default (timeStep e) (Some dt)) with dt. by rewrite Hen, Hdt.
  - apply integrate_law.
  - intros e m dt n Hms Hss Hcs Hfree Hforce Hen Hdt.
    destruct (steps_single e m dt n Hms Hss Hcs Hfree Hforce Hen Hdt)
      as (mn & Hn & Hfn & Hzn & Hwn).
    cbn [steps]. rewrite Hn.
    rewrite (single_step (set_masses [mn] e) mn dt eq_refl Hss Hcs Hen Hdt).
    cbn [set_masses masses gravity damping].
    eexists _, _. split; [reflexivity |]. split; [reflexivity |].
    cbv zeta. rewrite <- Hwn.
    rewrite (applyGravity_free (gravity e) mn Hfn), integrateMass_free by done.
    unfold collideMass. rewrite Hzn.
    cbn [fixed set_force set_position set_velocity position velocity
         force mass x y z zero3].
    rewrite Hfn. cbn [negb andb]. by intros ->.
Qed.

Lemma integration_and_free_fall_witness :
  fst (update (Some (1 / 60)) sky)
  = clearForces (handleCollisions (applyConstraints
                   (integrate (1 / 60) (applyForces sky))))
  ∧ (∃ m', masses (integrate (1 / 60) (applyForces scenario)) !! 1%nat = Some m'
           ∧ velocity m' = mkVec3 ((0 + 0 / 10 * (1 / 60)) * 0.95)
                                  ((0 + (0 - 10 * 9.8) / 10 * (1 / 60)) * 0.95)
                                  ((0 + 0 / 10 * (1 / 60)) * 0.95))
  ∧ (∃ mn mn1, masses (steps 3 (1 / 60) sky) = [mn]
               ∧ masses (steps 4 (1 / 60) sky) = [mn1]
               ∧ y (velocity mn1)
                 = (y (velocity mn) + (0 - 10 * 9.8) / 10 * (1 / 60)) * 0.95
               ∧ y (position mn1) = y (position mn) + y (velocity mn1) * (1 / 60)).
Proof.
  destruct integration_and_free_fall as (Hstep & Hint & Hfall).
  split; [apply Hstep; reflexivity |]. split.
  - destruct (Hint (applyForces scenario) (1 / 60) 1%nat
                (set_force (mkVec3 0 (0 - 10 * 9.8) 0) massB))
      as (m' & Hm' & Hv & _); [vm_compute; reflexivity | reflexivity |].
    exists m'. split; [exact Hm' | exact Hv].
  - destruct (Hfall sky skyMass (1 / 60) 3%nat) as (mn & mn1 & Hn & Hn1 & Hlaw);
      [reflexivity | reflexivity | vm_compute; constructor
      | reflexivity | reflexivity | reflexivity | reflexivity |].
    exists mn, mn1. split; [exact Hn |]. split; [exact Hn1 |].
    cbv zeta in Hlaw. destruct Hlaw as [Hv Hp].
    + vm_compute in Hn. injection Hn as <-. vm_compute. reflexivity.
    + split; [exact Hv |]. rewrite Hp, Hv. reflexivity.
Defined.

(** C1, as stated, fails at the ground: the ball is 0.001 above the plane,
    the step integrates it below [-50] and the collision phase puts it on
    the plane and turns its velocity around. *)
Lemma free_fall_counterexample :
  ∃ m1, masses (steps 1 (1 / 60) drop) = [m1]
    ∧ y (velocity m1) ≠ (0 + (0 - 10 * 9.8) / 10 * (1 / 60)) * 0.95
    ∧ - y (velocity m1) ≠ 0.95 * (0 + 9.8 * (1 / 60))
    ∧ y (position m1) ≠ -49.999 + y (velocity m1) * (1 / 60)
    ∧ y (position m1) ≠ -49.999 - y (velocity m1) * (1 / 60).
Proof.
  eexists. split; [vm_compute; reflexivity |].
  repeat split; apply float_neq; vm_compute; reflexivity.
Qed.

(** Away from the ground the law holds with the acceleration the code
    computes, [(0 - mass * g) / mass]; that quotient need not round to
    [-g]: with mass 10 under lunar gravity it is [-1.6200000000000003]. *)
Example free_fall_rounding :
  (0 - 10 * 1.62) / 10 ≠ - 1.62
  ∧ ∃ m1, masses (steps 1 (1 / 60) (setGravity 1.62 sky)) = [m1]
          ∧ y (velocity m1) = (0 + (0 - 10 * 1.62) / 10 * (1 / 60)) * 0.95
          ∧ y (velocity m1) ≠ (0 + - 1.62 * (1 / 60)) * 0.95.
Proof.
  split; [apply float_neq; vm_compute; reflexivity |].
  eexists. split; [vm_compute; reflexivity |].
  split; [vm_compute; reflexivity |]. apply float_neq; vm_compute; reflexivity.
Qed.

(** ** References stay valid *)

(** The branches of [applySpring] and [applyDistanceConstraint] for a
    reference that points outside the store are never taken: construction
    only stores references returned by [find], and no call changes the
    length of the store or the references held. *)

Lemma applySpring_length (ms : list Mass) (s : Spring) :
  length (applySpring ms s) = length ms.
Proof.
  unfold applySpring.
  destruct (ms !! spring_mass1 s) as [m1 |]; [| done].
  destruct (ms !! spring_mass2 s) as [m2 |]; [| done].
  cbv zeta. destruct (_ =? 0); [done |].
  destruct (fixed m1), (fixed m2); by rewrite ?length_alter.
Qed.

Lemma applyConstraint_length (ms : list Mass) (c : Constraint) :
  length (applyConstraint ms c) = length ms.
Proof.
  destruct c as [i1 i2 d k |]; [| done].
  cbn [applyConstraint]. unfold applyDistanceConstraint.
  destruct (ms !! i1) as [m1 |]; [| done].
  destruct (ms !! i2) as [m2 |]; [| done].
  cbv zeta. destruct (_ =? 0); [done |].
  destruct (fixed m1), (fixed m2); by rewrite ?length_alter.
Qed.

Lemma foldl_length {A : Type} (f : list Mass → A → list Mass) (l : list A)
    (ms : list Mass) :
  (∀ ms a, length (f ms a) = length ms) → length (foldl f ms l) = length ms.
Proof.
  intros Hf. revert ms. induction l as [| a l IH]; intros ms; [done |].
  cbn [foldl]. by rewrite IH.
Qed.

Lemma exec_length (op : Op) (e : PhysicsEngine) :
  length (masses (exec e op)) = length (masses e).
Proof.
  destruct op; cbn [exec]; try done.
  - unfold update. destruct (_ || _); [done |]. cbn [fst].
    unfold clearForces, handleCollisions, applyConstraints, integrate, applyForces.
    cbn [set_masses masses forLoop].
    rewrite !length_fmap, !(foldl_length _ _ _ applyConstraint_length), length_fmap.
    by rewrite (foldl_length _ _ _ applySpring_length), length_fmap.
  - unfold applyForce. destruct (find _ _) as [[j mj] |]; [| done].
    destruct (negb (fixed mj)); [apply length_alter | done].
  - unfold applyImpulse. destruct (find _ _) as [[j mj] |]; [| done].
    destruct (negb (fixed mj)); [apply length_alter | done].
  - apply length_fmap.
  - apply length_fmap.
  - unfold toggleFixed, getMassById. destruct (find _ _) as [[j mj] |]; [| done].
    apply length_alter.
  - apply length_fmap.
Qed.

Lemma exec_spring_refs (op : Op) (e : PhysicsEngine) :
  (λ s, (spring_mass1 s, spring_mass2 s)) <$> springs (exec e op)
  = (λ s, (spring_mass1 s, spring_mass2 s)) <$> springs e.
Proof.
  destruct op; cbn [exec]; call_cases; try done.
  cbn [setStiffness springs]. by rewrite <- list_fmap_compose.
Qed.

Lemma parsePhysicsData_refs_wf (meshData : MeshData) (e : PhysicsEngine) :
  refs_wf (parsePhysicsData meshData e).
Proof.
  unfold refs_wf. cbn [parsePhysicsData masses springs constraints].
  set (ms := massOfVertex <$> vertices meshData). split.
  - apply Forall_forall. intros s (edge & _ & Hs)%list_elem_of_omap.
    unfold springOfEdge in Hs.
    destruct (find edge.1 ms) as [[i1 v1] |] eqn:H1; [| done].
    destruct (find edge.2 ms) as [[i2 v2] |] eqn:H2; [| done].
    injection Hs as <-. cbn [spring_mass1 spring_mass2].
    apply find_Some in H1 as [H1 _]. apply find_Some in H2 as [H2 _].
    split; by eapply lookup_lt_Some.
  - apply Forall_app. split.
    + destruct (meshJointConstraints meshData); [| constructor].
      apply Forall_forall. intros c (row & _ & Hc)%list_elem_of_omap.
      destruct row as [[id1 id2] d]. unfold jointConstraintOf in Hc.
      destruct (find id1 ms) as [[i1 v1] |] eqn:H1; [| done].
      destruct (find id2 ms) as [[i2 v2] |] eqn:H2; [| done].
      injection Hc as <-.
      apply find_Some in H1 as [H1 _]. apply find_Some in H2 as [H2 _].
      split; by eapply lookup_lt_Some.
    + apply Forall_forall. intros c Hc.
      apply addCollisionConstraints_elem in Hc as (i & m & Hm & _ & ->).
      by eapply lookup_lt_Some.
Qed.

Lemma exec_refs_wf (op : Op) (e : PhysicsEngine) : refs_wf e → refs_wf (exec e op).
Proof.
  unfold refs_wf. rewrite exec_length, exec_constraints. intros [Hs Hc].
  split; [| done].
  assert (Forall (λ r : nat * nat,
                    (r.1 < length (masses e))%nat ∧ (r.2 < length (masses e))%nat)
            ((λ s, (spring_mass1 s, spring_mass2 s)) <$> springs (exec e op))) as H.
  { rewrite exec_spring_refs. by apply Forall_fmap. }
  by apply Forall_fmap in H.
Qed.

(** * Further properties of the engine *)

(** ** Views of the store that a method keeps *)

(** A view is a function of a mass. A method keeps a view when it only
    assigns to fields the view does not read. *)
Section kept.
Context {T : Type}.
Variable view : Mass → T.
Hypothesis view_position : ∀ p m, view (set_position p m) = view m.
Hypothesis view_velocity : ∀ v m, view (set_velocity v m) = view m.
Hypothesis view_force : ∀ f m, view (set_force f m) = view m.
Hypothesis view_fixed : ∀ b m, view (set_fixed b m) = view m.

Lemma fmap_kept (f : Mass → Mass) (ms : list Mass) :
  (∀ m, view (f m) = view m) → view <$> (f <$> ms) = view <$> ms.
Proof.
  intros Hf. rewrite <- list_fmap_compose. apply list_fmap_ext.
  intros _ m _. apply Hf.
Qed.

Lemma alter_kept (f : Mass → Mass) (i : nat) (ms : list Mass) :
  (∀ m, view (f m) = view m) → view <$> alter f i ms = view <$> ms.
Proof.
  intros Hf. apply list_eq. intros j. rewrite !list_lookup_fmap.
  destruct (decide (i = j)) as [-> | Hne].
  - rewrite list_lookup_alter_eq. destruct (ms !! j); cbn; [by rewrite Hf | done].
  - by rewrite list_lookup_alter_ne.
Qed.

Lemma guarded_alter_kept (f : Mass → Mass) (b : bool) (i : nat) (ms : list Mass) :
  (∀ m, view (f m) = view m) → view <$> (if b then ms else alter f i ms) = view <$> ms.
Proof. intros Hf. destruct b; [done | by apply alter_kept]. Qed.

Lemma foldl_kept {A : Type} (f : list Mass → A → list Mass) (l : list A)
    (ms : list Mass) :
  (∀ ms a, view <$> f ms a = view <$> ms) → view <$> foldl f ms l = view <$> ms.
Proof.
  intros Hf. revert ms. induction l as [| a l IH]; intros ms; [done |].
  cbn [foldl]. by rewrite IH.
Qed.

Lemma applySpring_kept (ms : list Mass) (s : Spring) :
  view <$> applySpring ms s = view <$> ms.
Proof.
  unfold applySpring.
  destruct (ms !! spring_mass1 s) as [m1 |]; [| done].
  destruct (ms !! spring_mass2 s) as [m2 |]; [| done].
  cbv zeta. destruct (_ =? 0); [done |].
  rewrite guarded_alter_kept by (intros; apply view_force).
  apply guarded_alter_kept. intros; apply view_force.
Qed.

Lemma applyConstraint_kept (ms : list Mass) (c : Constraint) :
  view <$> applyConstraint ms c = view <$> ms.
Proof.
  destruct c as [i1 i2 d k |]; [| done].
  cbn [applyConstraint]. unfold applyDistanceConstraint.
  destruct (ms !! i1) as [m1 |]; [| done].
  destruct (ms !! i2) as [m2 |]; [| done].
  cbv zeta. destruct (_ =? 0); [done |].
  rewrite guarded_alter_kept by (intros; apply view_position).
  apply guarded_alter_kept. intros; apply view_position.
Qed.

Lemma applyForces_kept (e : PhysicsEngine) :
  view <$> masses (applyForces e) = view <$> masses e.
Proof.
  unfold applyForces. cbn [set_masses masses].
  rewrite (foldl_kept _ _ _ applySpring_kept). apply fmap_kept.
  intros m. unfold applyGravity. by destruct (fixed m).
Qed.

Lemma integrate_kept (dt : float) (e : PhysicsEngine) :
  view <$> masses (integrate dt e) = view <$> masses e.
Proof.
  unfold integrate. cbn [set_masses masses]. apply fmap_kept.
  intros m. unfold integrateMass. destruct (fixed m); [done |].
  by rewrite view_position, view_velocity.
Qed.

Lemma applyConstraints_kept (e : PhysicsEngine) :
  view <$> masses (applyConstraints e) = view <$> masses e.
Proof.
  unfold applyConstraints. cbn [set_masses masses forLoop].
  by rewrite !(foldl_kept _ _ _ applyConstraint_kept).
Qed.

Lemma handleCollisions_kept (e : PhysicsEngine) :
  view <$> masses (handleCollisions e) = view <$> masses e.
Proof.
  unfold handleCollisions. cbn [set_masses masses]. apply fmap_kept.
  intros m. unfold collideMass. destruct (_ && _); [| done].
  by rewrite view_velocity, view_position.
Qed.

Lemma clearForces_kept (e : PhysicsEngine) :
  view <$> masses (clearForces e) = view <$> masses e.
Proof. unfold clearForces. cbn [set_masses masses]. by apply fmap_kept. Qed.

Lemma update_kept (deltaTime : option float) (e : PhysicsEngine) :
  view <$> masses (fst (update deltaTime e)) = view <$> masses e.
Proof.
  unfold update. destruct (_ || _); [done |]. cbn [fst].
  by rewrite clearForces_kept, handleCollisions_kept, applyConstraints_kept,
    integrate_kept, applyForces_kept.
Qed.

Lemma applyForce_kept (id : string) (f : Vec3) (e : PhysicsEngine) :
  view <$> masses (applyForce id f e) = view <$> masses e.
Proof.
  unfold applyForce. destruct (find _ _) as [[j mj] |]; [| done].
  destruct (negb (fixed mj)); [| done]. cbn [set_masses masses].
  apply alter_kept. intros m. apply view_force.
Qed.

Lemma applyImpulse_kept (id : string) (v : Vec3) (e : PhysicsEngine) :
  view <$> masses (applyImpulse id v e) = view <$> masses e.
Proof.
  unfold applyImpulse. destruct (find _ _) as [[j mj] |]; [| done].
  destruct (negb (fixed mj)); [| done]. cbn [set_masses masses].
  apply alter_kept. intros m. apply view_velocity.
Qed.

Lemma applyWind_kept (w : Vec3) (e : PhysicsEngine) :
  view <$> masses (applyWind w e) = view <$> masses e.
Proof.
  unfold applyWind. cbn [set_masses masses]. apply fmap_kept.
  intros m. unfold windMass. by destruct (negb (fixed m)).
Qed.

Lemma applyExplosion_kept (c : Vec3) (r f : float) (e : PhysicsEngine) :
  view <$> masses (applyExplosion c r f e) = view <$> masses e.
Proof.
  unfold applyExplosion. cbn [set_masses masses]. apply fmap_kept.
  intros m. unfold explodeMass. destruct (negb (fixed m)); [| done].
  cbv zeta. by destruct (_ && _).
Qed.

Lemma reset_kept (e : PhysicsEngine) :
  view <$> masses (reset e) = view <$> masses e.
Proof.
  unfold reset. cbn [set_masses masses]. apply fmap_kept.
  intros m. unfold resetMass. rewrite view_force, view_velocity.
  by destruct (originalPositions e !! mass_id m).
Qed.

Lemma toggleFixed_kept (id : string) (e : PhysicsEngine) :
  view <$> masses (fst (toggleFixed id e)) = view <$> masses e.
Proof.
  unfold toggleFixed, getMassById. destruct (find _ _) as [[j mj] |]; [| done].
  cbn [fst set_masses masses]. apply alter_kept. intros m. apply view_fixed.
Qed.

(** Every call but [toggleFixed]. *)
Lemma exec_kept_untoggled (op : Op) (e : PhysicsEngine) :
  is_toggle op = false → view <$> masses (exec e op) = view <$> masses e.
Proof.
  intros Hop. destruct op; cbn [exec]; try done.
  - apply update_kept.
  - apply applyForce_kept.
  - apply applyImpulse_kept.
  - apply applyWind_kept.
  - apply applyExplosion_kept.
  - apply reset_kept.
Qed.

Lemma exec_kept (op : Op) (e : PhysicsEngine) :
  view <$> masses (exec e op) = view <$> masses e.
Proof.
  destruct (is_toggle op) eqn:Hop; [| by apply exec_kept_untoggled].
  destruct op; try done. apply toggleFixed_kept.
Qed.

Lemma run_kept (ops : list Op) (e : PhysicsEngine) :
  view <$> masses (run ops e) = view <$> masses e.
Proof.
  revert e. induction ops as [| op ops IH]; intros e; [done |].
  unfold run. cbn [foldl]. fold (run ops (exec e op)). by rewrite IH, exec_kept.
Qed.

Lemma run_kept_untoggled (ops : list Op) (e : PhysicsEngine) :
  forallb (λ op, negb (is_toggle op)) ops = true →
  view <$> masses (run ops e) = view <$> masses e.
Proof.
  revert e. induction ops as [| op ops IH]; intros e Hops; [done |].
  cbn [forallb] in Hops. apply andb_true_iff in Hops as [Hop Hops].
  apply negb_true_iff in Hop.
  unfold run. cbn [foldl]. fold (run ops (exec e op)).
  by rewrite IH, exec_kept_untoggled.
Qed.

End kept.

(** ** What the calls never change *)

Lemma exec_springShape (op : Op) (e : PhysicsEngine) :
  springShape <$> springs (exec e op) = springShape <$> springs e.
Proof.
  destruct op; cbn [exec]; call_cases; try done.
  cbn [setStiffness springs]. by rewrite <- list_fmap_compose.
Qed.

Lemma exec_timeStep (op : Op) (e : PhysicsEngine) : timeStep (exec e op) = timeStep e.
Proof. destruct op; cbn [exec]; call_cases; done. Qed.

(** X1: whatever is called after construction, the store keeps its masses
    in their order, each with its id, original position, mass, group and
    type; the springs keep their ends, rest length and damping; the
    constraints, the recorded original positions and the default time step
    stay as they are. *)
Theorem calls_keep_topology (ops : list Op) (e : PhysicsEngine) :
  identity <$> masses (run ops e) = identity <$> masses e
  ∧ springShape <$> springs (run ops e) = springShape <$> springs e
  ∧ constraints (run ops e) = constraints e
  ∧ originalPositions (run ops e) = originalPositions e
  ∧ timeStep (run ops e) = timeStep e.
Proof.
  split; [by apply run_kept |].
  revert e. induction ops as [| op ops IH]; intros e; [done |].
  unfold run. cbn [foldl]. fold (run ops (exec e op)).
  destruct (IH (exec e op)) as (-> & -> & -> & ->).
  by rewrite exec_springShape, exec_constraints, exec_originalPositions, exec_timeStep.
Qed.

(** X2: the [fixed] flag of a mass only changes through [toggleFixed]: a
    sequence of other calls leaves every flag as it was. *)
Theorem fixed_changes_only_by_toggle (ops : list Op) (e : PhysicsEngine) :
  forallb (λ op, negb (is_toggle op)) ops = true →
  fixed <$> masses (run ops e) = fixed <$> masses e.
Proof. intros Hops. by apply run_kept_untoggled. Qed.

Lemma fixed_changes_only_by_toggle_witness :
  fixed <$> masses (run [OUpdate None; OReset; OApplyWind (mkVec3 1 0 0);
                         OApplyImpulse "B" (mkVec3 0 5 0); OUpdate (Some 0.2)] scenario)
  = [true; false].
Proof.
  rewrite (fixed_changes_only_by_toggle _ scenario); reflexivity.
Defined.

(** X3: [applyForce], [applyWind] and [applyExplosion] write force
    accumulators only, and [applyImpulse] writes velocities only: positions
    and flags of all masses, and everything in the engine but the store,
    are untouched, so nothing moves before the next step. *)
Theorem force_interface_frame (e : PhysicsEngine) :
  (∀ id f, (λ m, (position m, velocity m, fixed m)) <$> masses (applyForce id f e)
           = (λ m, (position m, velocity m, fixed m)) <$> masses e
           ∧ applyForce id f e = set_masses (masses (applyForce id f e)) e)
  ∧ (∀ w, (λ m, (position m, velocity m, fixed m)) <$> masses (applyWind w e)
          = (λ m, (position m, velocity m, fixed m)) <$> masses e
          ∧ applyWind w e = set_masses (masses (applyWind w e)) e)
  ∧ (∀ c r f, (λ m, (position m, velocity m, fixed m)) <$> masses (applyExplosion c r f e)
              = (λ m, (position m, velocity m, fixed m)) <$> masses e
              ∧ applyExplosion c r f e = set_masses (masses (applyExplosion c r f e)) e)
  ∧ (∀ id v, (λ m, (position m, force m, fixed m)) <$> masses (applyImpulse id v e)
             = (λ m, (position m, force m, fixed m)) <$> masses e
             ∧ applyImpulse id v e = set_masses (masses (applyImpulse id v e)) e).
Proof.
  repeat split.
  - by apply applyForce_kept.
  - unfold applyForce. destruct (find _ _) as [[j mj] |]; [| by rewrite set_masses_same].
    destruct (negb (fixed mj)); [done | by rewrite set_masses_same].
  - by apply applyWind_kept.
  - by apply applyExplosion_kept.
  - by apply applyImpulse_kept.
  - unfold applyImpulse. destruct (find _ _) as [[j mj] |]; [| by rewrite set_masses_same].
    destruct (negb (fixed mj)); [done | by rewrite set_masses_same].
Qed.

(** X4: the relaxation of the distance constraints corrects positions
    only: it leaves the velocity, the force and the flag of every mass as
    they were, so a correction never feeds back into the velocities. *)
Theorem relaxation_moves_positions_only (e : PhysicsEngine) :
  (λ m, (velocity m, force m, fixed m, identity m)) <$> masses (applyConstraints e)
  = (λ m, (velocity m, force m, fixed m, identity m)) <$> masses e
  ∧ applyConstraints e = set_masses (masses (applyConstraints e)) e.
Proof. split; [by apply applyConstraints_kept | done]. Qed.

(** X5: when [update] returns a list, the list has one entry per mass,
    fixed or not, in the order of the store, with the id of the mass and
    the position the mass has after the step; it returns a list exactly
    when the engine is enabled and the time step is not [<= 0]. *)
Theorem update_returns_snapshot
    (deltaTime : option float) (e : PhysicsEngine) (snap : list (string * Vec3)) :
  snd (update deltaTime e) = Some snap →
  snap.*1 = mass_id <$> masses e
  ∧ snap.*2 = position <$> masses (fst (update deltaTime e))
  ∧ length snap = length (masses e)
  ∧ enabled e = true ∧ (default (timeStep e) deltaTime <=? 0) = false.
Proof.
  intros Hsnap.
  pose proof (update_kept mass_id (λ _ _, eq_refl) (λ _ _, eq_refl) (λ _ _, eq_refl)
                deltaTime e) as Hids.
  unfold update in *.
  destruct (negb (enabled e)) eqn:Hen; [done |].
  destruct (_ <=? 0) eqn:Hdt; [done |]. cbn [orb fst snd] in *.
  injection Hsnap as <-. unfold getMassPositions.
  assert (((λ m, (mass_id m, mkVec3 (x (position m)) (y (position m)) (z (position m))))
           <$> masses (clearForces (handleCollisions (applyConstraints
                 (integrate (default (timeStep e) deltaTime) (applyForces e)))))).*1
          = mass_id <$> masses e) as H1.
  { rewrite <- Hids, <- list_fmap_compose. by apply list_fmap_ext. }
  repeat split.
  - exact H1.
  - rewrite <- list_fmap_compose. apply list_fmap_ext. intros _ m _. cbn.
    apply vec3_eta.
  - rewrite <- (length_fmap fst), H1. apply length_fmap.
  - by apply negb_false_iff.
Qed.

Lemma update_returns_snapshot_witness :
  ∃ snap, snd (update None scenario) = Some snap ∧ snap.*1 = ["A"; "B"]
          ∧ length snap = 2%nat.
Proof.
  destruct (snd (update None scenario)) as [snap |] eqn:Hsnap;
    [| vm_compute in Hsnap; discriminate Hsnap].
  exists snap. split; [reflexivity |].
  destruct (update_returns_snapshot None scenario snap Hsnap) as (H1 & _ & H3 & _).
  split; [exact H1 | exact H3].
Defined.

(** ** The ground after a step *)

Lemma collideMass_above (m : Mass) :
  fixed (collideMass m) = true ∨ (y (position (collideMass m)) <? -50) = false.
Proof.
  unfold collideMass. destruct (fixed m) eqn:Hfix; cbn [negb andb]; [by left |].
  destruct (y (position m) <? -50) eqn:Hy; right; [reflexivity | exact Hy].
Qed.

(** X6: a step that runs leaves no free mass below the ground plane:
    afterwards every mass is fixed or has [position.y < -50] false. *)
Theorem step_leaves_no_free_mass_below_ground
    (deltaTime : option float) (e : PhysicsEngine) :
  enabled e = true → (default (timeStep e) deltaTime <=? 0) = false →
  Forall (λ m, fixed m = true ∨ (y (position m) <? -50) = false)
         (masses (fst (update deltaTime e))).
Proof.
  intros Hen Hdt. unfold update. rewrite Hen, Hdt. cbn [negb orb fst].
  unfold clearForces, handleCollisions. cbn [set_masses masses].
  apply Forall_fmap, Forall_fmap, Forall_true. intros m. cbn.
  apply collideMass_above.
Qed.

Lemma step_leaves_no_free_mass_below_ground_witness :
  Forall (λ m, fixed m = true ∨ (y (position m) <? -50) = false)
         (masses (fst (update (Some 0.1) (enable (init (Some sunkenMesh) constructor))))).
Proof.
  apply step_leaves_no_free_mass_below_ground; reflexivity.
Defined.

(** ** A disabled engine *)

Lemma exec_stays_disabled (op : Op) (e : PhysicsEngine) :
  op ≠ OEnable → enabled e = false → enabled (exec e op) = false.
Proof. intros Hop He. destruct op; cbn [exec]; call_cases; done. Qed.

(** X7: while the engine is disabled, calls of [update] count for
    nothing: a sequence of calls without [enable] ends in the state that
    the sequence without its [update] calls ends in. *)
Theorem disabled_engine_ignores_steps (ops : list Op) (e : PhysicsEngine) :
  enabled e = false → OEnable ∉ ops →
  run ops e = run (List.filter (λ op, negb (is_update op)) ops) e.
Proof.
  revert e. induction ops as [| op ops IH]; intros e He Hops; [done |].
  apply not_elem_of_cons in Hops as [Hop Hops].
  unfold run. cbn [foldl List.filter].
  fold (run ops (exec e op)).
  rewrite (IH _ (exec_stays_disabled op e (not_eq_sym Hop) He) Hops).
  destruct op; cbn [is_update negb foldl]; try done.
  cbn [exec]. unfold update. by rewrite He.
Qed.

Lemma disabled_engine_ignores_steps_witness :
  run [OUpdate None; OApplyWind (mkVec3 1 0 0); OUpdate (Some 3); OSetGravity 1.62;
       OUpdate None] (disable scenario)
  = run [OApplyWind (mkVec3 1 0 0); OSetGravity 1.62] (disable scenario).
Proof.
  apply (disabled_engine_ignores_steps
           [OUpdate None; OApplyWind (mkVec3 1 0 0); OUpdate (Some 3); OSetGravity 1.62;
            OUpdate None] (disable scenario)); [reflexivity |].
  intros Hin. repeat (apply elem_of_cons in Hin as [Hin | Hin]; [discriminate |]).
  by apply elem_of_nil in Hin.
Defined.

(** ** Toggling twice *)

Lemma find_alter (id : string) (f : Mass → Mass) (ms : list Mass) (i : nat) (m : Mass) :
  (∀ m', mass_id (f m') = mass_id m') →
  find id ms = Some (i, m) → find id (alter f i ms) = Some (i, f m).
Proof.
  intros Hf Hfind. unfold find in *. apply list_find_Some in Hfind as (Hi & Hid & Hmin).
  apply list_find_Some. split; [| split].
  - by rewrite list_lookup_alter_eq, Hi.
  - by rewrite Hf.
  - intros j mj Hj Hlt. rewrite list_lookup_alter_ne in Hj by lia. by eapply Hmin.
Qed.

(** X8: [toggleFixed] undoes itself: two calls with the same id leave the
    engine in the state it was in, with the flag of the mass found (the
    first one that carries the id) flipped in between; the values returned
    are the flag after each call. *)
Theorem toggleFixed_twice (massId : string) (e : PhysicsEngine) :
  fst (toggleFixed massId (fst (toggleFixed massId e))) = e
  ∧ (∀ i m, find massId (masses e) = Some (i, m) →
       snd (toggleFixed massId e) = Some (negb (fixed m))
       ∧ masses (fst (toggleFixed massId e)) !! i = Some (set_fixed (negb (fixed m)) m)
       ∧ snd (toggleFixed massId (fst (toggleFixed massId e))) = Some (fixed m)).
Proof.
  unfold toggleFixed, getMassById.
  destruct (find massId (masses e)) as [[i m] |] eqn:Hfind; cbn [fst snd].
  - cbn [set_masses masses].
    rewrite (find_alter massId (set_fixed (negb (fixed m))) _ i m (λ _, eq_refl) Hfind).
    cbn [fst snd].
    pose proof (find_Some _ _ _ _ Hfind) as [Hi _].
    split.
    + transitivity (set_masses (masses e) e); [| apply set_masses_same].
      unfold set_masses. cbn. f_equal.
      apply list_eq. intros j. destruct (decide (i = j)) as [<- | Hne].
      * rewrite !list_lookup_alter_eq, Hi. cbn. f_equal.
        destruct m; cbn. by rewrite negb_involutive.
      * by rewrite !list_lookup_alter_ne.
    + intros ? ? [= <- <-]. split; [done |]. split.
      * by rewrite list_lookup_alter_eq, Hi.
      * cbn. by rewrite negb_involutive.
  - rewrite Hfind. split; [done | by intros].
Qed.

(** ** Springs *)

(** X9: one spring between two different masses at distance [r]: nothing
    happens when [r == 0]; otherwise, with
    [f = stiffness * (r - restLength) * (sep / r)], the first end gains
    [f] and the second end loses [f] in their force accumulators, each
    only if it is not fixed; no other mass and no other field changes. *)
Theorem applySpring_hooke (ms : list Mass) (s : Spring) (m1 m2 : Mass) :
  ms !! spring_mass1 s = Some m1 → ms !! spring_mass2 s = Some m2 →
  spring_mass1 s ≠ spring_mass2 s →
  let dx := x (position m2) - x (position m1) in
  let dy := y (position m2) - y (position m1) in
  let dz := z (position m2) - z (position m1) in
  let r := sqrt (dx * dx + dy * dy + dz * dz) in
  let k := spring_stiffness s * (r - restLength s) in
  let f := mkVec3 (k * (dx / r)) (k * (dy / r)) (k * (dz / r)) in
  let ms' := applySpring ms s in
  ((r =? 0) = true → ms' = ms)
  ∧ ((r =? 0) = false →
       ms' !! spring_mass1 s
       = Some (if fixed m1 then m1 else set_force (vadd (force m1) f) m1)
       ∧ ms' !! spring_mass2 s
         = Some (if fixed m2 then m2 else set_force (vsub (force m2) f) m2)
       ∧ ∀ j, j ≠ spring_mass1 s → j ≠ spring_mass2 s → ms' !! j = ms !! j).
Proof.
  intros H1 H2 Hne dx dy dz r k f ms'.
  unfold ms', applySpring, length3. rewrite H1, H2.
  fold dx dy dz. fold r. fold k. fold f.
  split.
  - by intros ->.
  - intros ->. destruct (fixed m1), (fixed m2); (split; [| split]); intros;
      repeat first [ rewrite list_lookup_alter_eq
                   | rewrite list_lookup_alter_ne by done ];
      by rewrite ?H1, ?H2.
Qed.

Lemma applySpring_hooke_witness :
  ∃ b, applySpring (masses hips) (mkSpring 0 1 10 2 0.1) !! 1%nat = Some b
       ∧ force b = mkVec3 (0 - 2 * (13 - 10) * (0 / 13)) (0 - 2 * (13 - 10) * (13 / 13))
                          (0 - 2 * (13 - 10) * (0 / 13)).
Proof.
  destruct (applySpring_hooke (masses hips) (mkSpring 0 1 10 2 0.1)
              (mkMass "hip_left" zero3 zero3 zero3 zero3 10 false "leg" "surface")
              (mkMass "waist_left" (mkVec3 0 13 0) (mkVec3 0 13 0) zero3 zero3
                      10 false "torso" "surface"))
    as (_ & Hpull); [reflexivity | reflexivity | discriminate |].
  destruct Hpull as (_ & H2 & _); [reflexivity |].
  eexists. split; [exact H2 | reflexivity].
Defined.

Lemma toggleFixed_twice_witness :
  fst (toggleFixed "B" (fst (toggleFixed "B" scenario))) = scenario
  ∧ snd (toggleFixed "B" scenario) = Some true
  ∧ snd (toggleFixed "B" (fst (toggleFixed "B" scenario))) = Some false.
Proof.
  destruct (toggleFixed_twice "B" scenario) as [Hback Hflag].
  split; [exact Hback |].
  destruct (Hflag 1%nat massB) as (H1 & _ & H2); [reflexivity |].
  split; [exact H1 | exact H2].
Defined.

(** ** The clamped setters *)

(** [Math.max(0, Math.min(1, s))], case by case. *)
Lemma clamp_unit (s : float) :
  JS.Math_max 0 (JS.Math_min 1 s)
  = if JS.isNaN s then nan
    else if 1 <? s then 1
    else if 0 <? s then s
    else 0.
Proof.
  unfold JS.Math_min.
  change (JS.isNaN 1) with false. change (JS.isNegZero 1) with false.
  cbn [orb]. destruct (JS.isNaN s) eqn:Hnan; [reflexivity |].
  destruct (1 <? s) eqn:H1; [reflexivity |].
  assert ((if s <? 1 then s else s) = s) as -> by (by destruct (s <? 1)).
  unfold JS.Math_max.
  change (JS.isNaN 0) with false. change (JS.isNegZero 0) with false.
  cbn [orb]. rewrite Hnan.
  destruct (0 <? s); [reflexivity |]. by destruct (s <? 0).
Qed.

(** X10: [setStiffness] and [setDamping] store [1] for an argument above
    [1], the argument itself when it is positive and not above [1], [+0]
    for every other number ([-0] included) and NaN for NaN.
    [setStiffness] also overwrites the stiffness of every spring with the
    stored value, whatever tension scale the spring was built with, and
    changes nothing else in a spring; neither setter changes any other
    part of the engine. *)
Theorem setters_clamp (v : float) (e : PhysicsEngine) :
  let k := if JS.isNaN v then nan
           else if 1 <? v then 1 else if 0 <? v then v else 0 in
  stiffness (setStiffness v e) = k
  ∧ Forall (λ s, spring_stiffness s = k) (springs (setStiffness v e))
  ∧ springShape <$> springs (setStiffness v e) = springShape <$> springs e
  ∧ (gravity (setStiffness v e), damping (setStiffness v e), enabled (setStiffness v e),
     masses (setStiffness v e), constraints (setStiffness v e))
    = (gravity e, damping e, enabled e, masses e, constraints e)
  ∧ damping (setDamping v e) = k
  ∧ (gravity (setDamping v e), stiffness (setDamping v e), enabled (setDamping v e),
     masses (setDamping v e), springs (setDamping v e), constraints (setDamping v e))
    = (gravity e, stiffness e, enabled e, masses e, springs e, constraints e).
Proof.
  intros k. unfold setStiffness, setDamping. cbn [stiffness damping springs gravity
    enabled masses constraints]. rewrite clamp_unit. fold k.
  repeat split.
  - apply Forall_fmap, Forall_true. by intros s.
  - rewrite <- list_fmap_compose. by apply list_fmap_ext.
Qed.

(** Setting the stiffness to the value it has is not a no-op: the spring
    of the scenario was built with [0.3 * 0.15] and ends with [0.15]. *)
Example setStiffness_flattens :
  spring_stiffness <$> springs scenario = [0.3 * 0.15]
  ∧ spring_stiffness <$> springs (setStiffness (stiffness scenario) scenario) = [0.15]
  ∧ stiffness (setStiffness (-0) scenario) = 0
  ∧ damping (setDamping 7 scenario) = 1.
Proof. repeat split; vm_compute; reflexivity. Qed.

(** ** Springs and constraints at construction *)

Lemma find_is_Some (id : string) (ms : list Mass) :
  is_Some (find id ms) ↔ id ∈ mass_id <$> ms.
Proof.
  unfold find. split.
  - intros [[i m] (Hi & Hid & _)%list_find_Some].
    apply list_elem_of_fmap. exists m. split; [done |].
    by eapply list_elem_of_lookup_2.
  - intros (m & -> & Hm)%list_elem_of_fmap.
    by eapply list_find_elem_of.
Qed.

Lemma massOfVertex_ids (vs : list Vertex) :
  mass_id <$> (massOfVertex <$> vs) = vertex_id <$> vs.
Proof. rewrite <- list_fmap_compose. by apply list_fmap_ext. Qed.

Lemma springOfEdge_is_Some (meshData : MeshData) (t : option float) (k : float)
    (edge : string * string) :
  is_Some (springOfEdge t k (massOfVertex <$> vertices meshData) edge)
  ↔ knownEdge meshData edge = true.
Proof.
  unfold knownEdge. rewrite andb_true_iff, !bool_decide_eq_true.
  rewrite <- !massOfVertex_ids, <- !find_is_Some. unfold springOfEdge.
  destruct (find edge.1 _) as [[i1 m1] |]; [| split; [by intros [? ?] | by intros [[? ?] _]]].
  destruct (find edge.2 _) as [[i2 m2] |]; [| split; [by intros [? ?] | by intros [_ [? ?]]]].
  split; [by intros _ | by intros _].
Qed.

Lemma length_omap_filter {A B : Type} (f : A → option B) (p : A → bool) (l : list A) :
  (∀ a, is_Some (f a) ↔ p a = true) →
  length (omap f l) = length (List.filter p l).
Proof.
  intros Hfp. induction l as [| a l IH]; [done |].
  cbn [omap list_omap List.filter]. fold (omap f l).
  destruct (f a) as [b |] eqn:Hfa.
  - rewrite (proj1 (Hfp a)) by (by rewrite Hfa). cbn. by rewrite IH.
  - destruct (p a) eqn:Hpa; [| done].
    apply Hfp in Hpa. rewrite Hfa in Hpa. by destruct Hpa.
Qed.

Lemma omap_Forall2_filter {A B : Type} (f : A → option B) (p : A → bool)
    (R : A → B → Prop) (l : list A) :
  (∀ a, is_Some (f a) ↔ p a = true) → (∀ a b, f a = Some b → R a b) →
  Forall2 R (List.filter p l) (omap f l).
Proof.
  intros Hfp HR. induction l as [| a l IH]; [constructor |].
  cbn [omap list_omap List.filter]. fold (omap f l).
  destruct (f a) as [b |] eqn:Hfa.
  - rewrite (proj1 (Hfp a)) by (by rewrite Hfa). constructor; [by apply HR | exact IH].
  - destruct (p a) eqn:Hpa; [| exact IH].
    apply Hfp in Hpa. rewrite Hfa in Hpa. by destruct Hpa.
Qed.

(** X11: construction builds one spring for every edge whose two ids both
    name a vertex and silently drops every other edge: the springs are, in
    order, the springs of these edges. The spring of an edge joins the
    first masses that carry the two ids, its rest length is the distance
    between them as they are created, its stiffness is the tension scale
    times the global stiffness and its damping is [0.1]. *)
Theorem springs_follow_known_edges (meshData : MeshData) (e : PhysicsEngine) :
  let e' := parsePhysicsData meshData e in
  length (springs e') = length (List.filter (knownEdge meshData) (edges meshData))
  ∧ (∀ s, s ∈ springs e' →
      ∃ edge m1 m2,
        edge ∈ edges meshData
        ∧ find edge.1 (masses e') = Some (spring_mass1 s, m1)
        ∧ find edge.2 (masses e') = Some (spring_mass2 s, m2)
        ∧ restLength s = sqrt ((x (position m2) - x (position m1))
                               * (x (position m2) - x (position m1))
                               + (y (position m2) - y (position m1))
                                 * (y (position m2) - y (position m1))
                               + (z (position m2) - z (position m1))
                                 * (z (position m2) - z (position m1)))
        ∧ spring_damping s = 0.1)
  ∧ Forall2
      (λ edge s,
         ∃ m1 m2,
           find edge.1 (masses e') = Some (spring_mass1 s, m1)
           ∧ find edge.2 (masses e') = Some (spring_mass2 s, m2)
           ∧ restLength s = sqrt ((x (position m2) - x (position m1))
                                  * (x (position m2) - x (position m1))
                                  + (y (position m2) - y (position m1))
                                    * (y (position m2) - y (position m1))
                                  + (z (position m2) - z (position m1))
                                    * (z (position m2) - z (position m1)))
           ∧ spring_stiffness s = JS.or_else (meshTension meshData) 0.3 * stiffness e
           ∧ spring_damping s = 0.1)
      (List.filter (knownEdge meshData) (edges meshData)) (springs e').
Proof.
  intros e'. unfold e'. cbn [parsePhysicsData springs masses]. split; [| split].
  - apply length_omap_filter. intros edge. apply springOfEdge_is_Some.
  - intros s (edge & Hedge & Hs)%list_elem_of_omap. unfold springOfEdge in Hs.
    destruct (find edge.1 _) as [[i1 m1] |] eqn:H1; [| done].
    destruct (find edge.2 _) as [[i2 m2] |] eqn:H2; [| done].
    injection Hs as <-. by exists edge, m1, m2.
  - apply omap_Forall2_filter.
    + intros edge. apply springOfEdge_is_Some.
    + intros edge s Hs. unfold springOfEdge in Hs.
      destruct (find edge.1 _) as [[i1 m1] |] eqn:H1; [| done].
      destruct (find edge.2 _) as [[i2 m2] |] eqn:H2; [| done].
      injection Hs as <-. by exists m1, m2.
Qed.

Lemma springs_follow_known_edges_witness :
  (∃ m1 m2, find "A" (masses scenario) = Some (0%nat, m1)
            ∧ find "B" (masses scenario) = Some (1%nat, m2)
            ∧ restLength (mkSpring 0 1 10 (0.3 * 0.15) 0.1)
              = sqrt ((x (position m2) - x (position m1)) * (x (position m2) - x (position m1))
                      + (y (position m2) - y (position m1)) * (y (position m2) - y (position m1))
                      + (z (position m2) - z (position m1)) * (z (position m2) - z (position m1))))
  ∧ length (springs (parsePhysicsData scenarioMesh constructor)) = 1%nat.
Proof.
  destruct (springs_follow_known_edges scenarioMesh constructor) as (Hlen & Heach & Hall).
  split; [| exact Hlen].
  destruct (Heach (mkSpring 0 1 10 (0.3 * 0.15) 0.1))
    as (edge & m1 & m2 & Hedge & H1 & H2 & Hrest & _); [vm_compute; left |].
  apply list_elem_of_singleton in Hedge as ->.
  exists m1, m2. split; [exact H1 |]. split; [exact H2 | exact Hrest].
Defined.

(** An edge to a vertex that does not exist leaves no spring. *)
Example dangling_edge_is_dropped :
  springs (init (Some (mkMeshData (vertices scenarioMesh)
                                  [("A", "ghost"); ("A", "B"); ("ghost", "B")] None None))
                constructor)
  = springs (init (Some scenarioMesh) constructor).
Proof. vm_compute. reflexivity. Qed.

(** X12: the distance constraints of a constructed engine come from the
    table of joints: there are none unless the topology asks for them, at
    most eight otherwise; each one joins the first masses that carry the
    two ids of a row of the table, which are two different masses, with
    the distance of that row and stiffness [0.9]; a row with an id that
    names no vertex is dropped. *)
Theorem joint_constraints_from_table (meshData : MeshData) (e : PhysicsEngine) :
  let e' := parsePhysicsData meshData e in
  (length (List.filter is_distance (constraints e')) ≤ 8)%nat
  ∧ (meshJointConstraints meshData = false →
     List.filter is_distance (constraints e') = [])
  ∧ ∀ i1 i2 d k, Distance i1 i2 d k ∈ constraints e' →
      meshJointConstraints meshData = true ∧ k = 0.9 ∧ i1 ≠ i2
      ∧ ∃ id1 id2 m1 m2,
          (id1, id2, d) ∈ jointConstraintTable
          ∧ find id1 (masses e') = Some (i1, m1)
          ∧ find id2 (masses e') = Some (i2, m2).
Proof.
  intros e'. unfold e'. rewrite (constraints_parsed meshData e).
  cbn [parsePhysicsData masses constraints].
  set (ms := massOfVertex <$> vertices meshData). split; [| split].
  - destruct (meshJointConstraints meshData); [| cbn; lia].
    unfold addJointConstraints.
    assert (∀ (f : string * string * float → option Constraint) l,
              (length (omap f l) ≤ length l)%nat) as Hle.
    { intros f l. induction l as [| a l IH]; [done |].
      cbn [omap list_omap]. fold (omap f l). destruct (f a); cbn; lia. }
    apply (Hle _ jointConstraintTable).
  - by intros ->.
  - intros i1 i2 d k Hc. apply elem_of_app in Hc as [Hc | Hc].
    + destruct (meshJointConstraints meshData); [| by apply elem_of_nil in Hc].
      split; [done |].
      apply list_elem_of_omap in Hc as (row & Hrow & Hc).
      pose proof (proj1 (Forall_forall _ _) jointConstraintTable_distinct row Hrow) as Hne.
      destruct row as [[id1 id2] d']. unfold jointConstraintOf in Hc.
      destruct (find id1 ms) as [[j1 m1] |] eqn:H1; [| done].
      destruct (find id2 ms) as [[j2 m2] |] eqn:H2; [| done].
      injection Hc as -> -> -> <-. split; [done |]. split.
      * intros ->. apply find_Some in H1 as [H1 Hid1]. apply find_Some in H2 as [H2 Hid2].
        rewrite H1 in H2. injection H2 as ->. cbn in Hne. congruence.
      * by exists id1, id2, m1, m2.
    + apply addCollisionConstraints_elem in Hc as (i & m & _ & _ & Hc). discriminate Hc.
Qed.

Lemma joint_constraints_from_table_witness :
  ∃ m1 m2, ("hip_left", "waist_left", 10) ∈ jointConstraintTable
           ∧ find "hip_left" (masses (parsePhysicsData hipMesh constructor)) = Some (0%nat, m1)
           ∧ find "waist_left" (masses (parsePhysicsData hipMesh constructor))
             = Some (1%nat, m2).
Proof.
  destruct (proj2 (proj2 (joint_constraints_from_table hipMesh constructor)) 0%nat 1%nat 10 0.9)
    as (_ & _ & _ & id1 & id2 & m1 & m2 & Hrow & H1 & H2); [vm_compute; left |].
  exists m1, m2. split; [vm_compute; do 4 right; left |].
  apply find_Some in H1 as H1'. apply find_Some in H2 as H2'.
  destruct H1' as [H1' <-], H2' as [H2' <-].
  vm_compute in H1'. vm_compute in H2'. injection H1' as <-. injection H2' as <-.
  split; [exact H1 | exact H2].
Defined.

(** ** References *)

Lemma run_refs_wf (ops : list Op) (e : PhysicsEngine) : refs_wf e → refs_wf (run ops e).
Proof.
  revert e. induction ops as [| op ops IH]; intros e He; [done |].
  unfold run. cbn [foldl]. by apply IH, exec_refs_wf.
Qed.

(** X13: after construction from any topology and any sequence of calls,
    every spring and every constraint refers to masses that are in the
    store, and the two ends of a distance constraint are different
    masses: no loop of the step ever reads through a dangling reference. *)
Theorem references_stay_valid (meshData : MeshData) (e0 : PhysicsEngine) (ops : list Op) :
  refs_wf (run ops (init (Some meshData) e0))
  ∧ constraints_wf (run ops (init (Some meshData) e0)).
Proof.
  split.
  - apply run_refs_wf, parsePhysicsData_refs_wf.
  - apply run_constraints_wf, parsePhysicsData_constraints_wf.
Qed.

(** ** Reset after a simulation *)

Lemma run_originalPositions (ops : list Op) (e : PhysicsEngine) :
  originalPositions (run ops e) = originalPositions e.
Proof.
  revert e. induction ops as [| op ops IH]; intros e; [done |].
  unfold run. cbn [foldl]. fold (run ops (exec e op)).
  by rewrite IH, exec_originalPositions.
Qed.

Lemma resetMass_snapshot (om : gmap string Vec3) (m : Mass) :
  om !! mass_id m = Some (originalPosition m) →
  resetMass om m
  = mkMass (mass_id m) (originalPosition m) (originalPosition m) zero3 zero3
           (mass m) (fixed m) (group m) (type m).
Proof. intros Hom. unfold resetMass. rewrite Hom. cbn. by rewrite vec3_eta. Qed.

Lemma identity_massOfVertex (m : Mass) (v : Vertex) :
  identity m = identity (massOfVertex v) →
  mkMass (mass_id m) (originalPosition m) (originalPosition m) zero3 zero3
         (mass m) (fixed m) (group m) (type m)
  = set_fixed (fixed m) (massOfVertex v).
Proof. unfold identity. cbn. by intros [= -> -> -> -> ->]. Qed.

(** X14: in an engine built from a topology with pairwise distinct vertex
    ids, [reset] after any sequence of calls puts every mass back in the
    state it was created in from its vertex, but for its [fixed] flag,
    which [reset] does not restore; if no call toggled a flag the store is
    exactly the store after construction. *)
Theorem reset_returns_to_construction
    (meshData : MeshData) (e : PhysicsEngine) (ops : list Op) :
  NoDup (vertex_id <$> vertices meshData) →
  let e0 := init (Some meshData) e in
  (∀ i m, masses (reset (run ops e0)) !! i = Some m →
     ∃ v, vertices meshData !! i = Some v ∧ m = set_fixed (fixed m) (massOfVertex v))
  ∧ (forallb (λ op, negb (is_toggle op)) ops = true →
     masses (reset (run ops e0)) = masses e0).
Proof.
  intros Hnd e0.
  pose proof (run_snapshot_ok ops e0 (parsePhysicsData_snapshot_ok meshData e Hnd)) as Hok.
  pose proof (run_kept identity (λ _ _, eq_refl) (λ _ _, eq_refl) (λ _ _, eq_refl)
                (λ _ _, eq_refl) ops e0) as Hid.
  assert (∀ i m, masses (reset (run ops e0)) !! i = Some m →
            ∃ v mr, vertices meshData !! i = Some v ∧ masses (run ops e0) !! i = Some mr
                    ∧ fixed m = fixed mr ∧ m = set_fixed (fixed m) (massOfVertex v)) as Hback.
  { intros i m Hm. unfold reset in Hm. cbn [set_masses masses] in Hm.
    apply list_lookup_fmap_Some in Hm as (mr & -> & Hmr).
    pose proof (f_equal (λ l, l !! i) Hid) as Hi. cbn beta in Hi.
    rewrite !list_lookup_fmap, Hmr in Hi. unfold e0 in Hi.
    cbn [init parsePhysicsData masses] in Hi. rewrite list_lookup_fmap in Hi.
    destruct (vertices meshData !! i) as [v |] eqn:Hv; [| done].
    injection Hi as Hi. exists v, mr.
    rewrite (resetMass_snapshot _ _ (Forall_lookup_1 _ _ _ _ Hok Hmr)).
    split; [done |]. split; [exact Hmr |]. split; [reflexivity |].
    cbn [fixed]. apply identity_massOfVertex. unfold identity. cbn.
    by rewrite Hi, H, H0, H1, H2. }
  split.
  - intros i m Hm. destruct (Hback i m Hm) as (v & mr & Hv & _ & _ & ->).
    exists v. cbn. done.
  - intros Hops.
    pose proof (run_kept_untoggled fixed (λ _ _, eq_refl) (λ _ _, eq_refl)
                  (λ _ _, eq_refl) ops e0 Hops) as Hfix.
    apply list_eq. intros i.
    destruct (masses (reset (run ops e0)) !! i) as [m |] eqn:Hm.
    + destruct (Hback i m Hm) as (v & mr & Hv & Hmr & Hfm & Hmv).
      pose proof (f_equal (λ l, l !! i) Hfix) as Hi. cbn beta in Hi.
      rewrite !list_lookup_fmap, Hmr in Hi. unfold e0 in *.
      cbn [init parsePhysicsData masses] in *. rewrite list_lookup_fmap, Hv in *.
      cbn in Hi. injection Hi as Hi. rewrite Hmv, Hfm, Hi. reflexivity.
    + apply lookup_ge_None in Hm. symmetry. apply lookup_ge_None.
      unfold reset in Hm. cbn [set_masses masses] in Hm. rewrite length_fmap in Hm.
      rewrite <- (length_fmap identity), <- Hid, length_fmap. exact Hm.
Qed.

Lemma reset_returns_to_construction_witness :
  masses (reset (run [OUpdate None; OApplyWind (mkVec3 3 0 0); OUpdate (Some 0.5);
                      OApplyImpulse "B" (mkVec3 0 40 0); OEnable; OUpdate None]
                     (init (Some scenarioMesh) constructor)))
  = masses (init (Some scenarioMesh) constructor).
Proof.
  apply (reset_returns_to_construction scenarioMesh constructor).
  - apply (bool_decide_unpack _). vm_compute. exact I.
  - reflexivity.
Defined.

(** ** Masses at construction *)

Lemma includes_unfold (s sub : string) :
  JS.includes s sub
  = if String.prefix sub s then true
    else match s with
         | EmptyString => false
         | String _ s' => JS.includes s' sub
         end.
Proof. by destruct s. Qed.

Lemma prefix_spec (p s : string) :
  String.prefix p s = true ↔ ∃ post, s = String.append p post.
Proof.
  revert s. induction p as [| c p IH]; intros s.
  - split; [by exists s | by destruct s].
  - destruct s as [| c' s]; cbn [String.prefix String.append];
      [split; [done | by intros [? ?]] |].
    destruct (Ascii.ascii_dec c c') as [<- | Hne].
    + rewrite IH. split; intros [post Hpost]; exists post; [by rewrite Hpost |].
      by injection Hpost.
    + split; [done |]. intros [post Hpost]. injection Hpost as <- _. done.
Qed.

(** [includes] is the substring test. *)
Lemma includes_spec (s sub : string) :
  JS.includes s sub = true
  ↔ ∃ pre post, s = String.append pre (String.append sub post).
Proof.
  split.
  - induction s as [| c s IH]; rewrite includes_unfold;
      destruct (String.prefix sub _) eqn:Hp.
    + intros _. apply prefix_spec in Hp as [post ->]. by exists EmptyString, post.
    + done.
    + intros _. apply prefix_spec in Hp as [post ->]. by exists EmptyString, post.
    + intros (pre & post & ->)%IH. by exists (String c pre), post.
  - intros (pre & post & ->). induction pre as [| c pre IH]; rewrite includes_unfold.
    + change (String.append EmptyString (String.append sub post))
        with (String.append sub post).
      by rewrite (proj2 (prefix_spec sub _) (ex_intro _ post eq_refl)).
    + destruct (String.prefix sub _); [done |]. exact IH.
Qed.

(** The entry kept under an id is the one of the last vertex that
    carries the id. *)
Lemma recordOriginal_last (vs : list Vertex) (om : gmap string Vec3) (id : string) :
  id ∈ vertex_id <$> vs →
  ∃ j v, vs !! j = Some v ∧ vertex_id v = id
         ∧ (∀ k v', vs !! k = Some v' → vertex_id v' = id → (k ≤ j)%nat)
         ∧ foldl recordOriginal om vs !! id
           = Some (mkVec3 (vertex_x v) (vertex_y v) (vertex_z v)).
Proof.
  induction vs as [| a vs IH] using rev_ind; [by intros ?%elem_of_nil |].
  intros Hid. rewrite foldl_app. cbn [foldl]. unfold recordOriginal at 1.
  destruct (decide (vertex_id a = id)) as [Ha | Ha].
  - exists (length vs), a. split; [by apply list_lookup_middle |]. split; [done |].
    split; [| by rewrite Ha, lookup_insert_eq].
    intros k v' Hk _. apply lookup_lt_Some in Hk. rewrite length_app in Hk.
    cbn in Hk. lia.
  - rewrite fmap_app in Hid. apply elem_of_app in Hid as [Hid | Hid].
    + destruct (IH Hid) as (j & v & Hj & Hv & Hmax & Hlook). exists j, v.
      split; [by apply lookup_app_l_Some |]. split; [done |]. split.
      * intros k v' Hk Hv'. apply lookup_app_Some in Hk as [Hk | [_ Hk]].
        -- by eapply Hmax.
        -- apply list_lookup_singleton_Some in Hk as [_ <-]. done.
      * by rewrite lookup_insert_ne.
    + cbn in Hid. apply list_elem_of_singleton in Hid. congruence.
Qed.

(** X15: construction makes one mass per vertex, in order: at rest at the
    coordinates of the vertex, which are also its original position, with
    ten times the weight as mass, and fixed exactly when the type of the
    vertex is ["joint"] or its group contains ["head"] as a substring.
    The entry of [originalPositions] under the id holds the coordinates of
    the last vertex that carries the id: of the vertex itself when the ids
    are pairwise distinct. *)
Theorem masses_follow_vertices (meshData : MeshData) (e : PhysicsEngine) :
  length (masses (init (Some meshData) e)) = length (vertices meshData)
  ∧ ∀ i v, vertices meshData !! i = Some v →
      ∃ m, masses (init (Some meshData) e) !! i = Some m
           ∧ mass_id m = vertex_id v
           ∧ position m = mkVec3 (vertex_x v) (vertex_y v) (vertex_z v)
           ∧ originalPosition m = position m
           ∧ velocity m = zero3 ∧ force m = zero3
           ∧ mass m = vertex_weight v * 10
           ∧ originalPositions (init (Some meshData) e) !! vertex_id v ≠ None
           ∧ (∃ j v', vertices meshData !! j = Some v' ∧ vertex_id v' = vertex_id v
                      ∧ (∀ k v'', vertices meshData !! k = Some v'' →
                           vertex_id v'' = vertex_id v → (k ≤ j)%nat)
                      ∧ originalPositions (init (Some meshData) e) !! vertex_id v
                        = Some (mkVec3 (vertex_x v') (vertex_y v') (vertex_z v')))
           ∧ (NoDup (vertex_id <$> vertices meshData) →
              originalPositions (init (Some meshData) e) !! vertex_id v
              = Some (mkVec3 (vertex_x v) (vertex_y v) (vertex_z v)))
           ∧ (fixed m = true
              ↔ vertex_type v = "joint"
                ∨ ∃ pre post, vertex_group v = String.append pre (String.append "head" post)).
Proof.
  cbn [init parsePhysicsData masses originalPositions]. split; [apply length_fmap |].
  intros i v Hv. exists (massOfVertex v). split; [by rewrite list_lookup_fmap, Hv |].
  assert (vertex_id v ∈ vertex_id <$> vertices meshData) as Hin.
  { apply list_elem_of_fmap_2. by eapply list_elem_of_lookup_2. }
  do 6 (split; [done |]). split; [| split; [| split; [| split]]].
  - intros Hnone.
    assert (is_Some (foldl recordOriginal ∅ (vertices meshData) !! vertex_id v)) as [p Hp].
    { apply recordOriginal_is_Some. by right. }
    congruence.
  - by apply recordOriginal_last.
  - intros Hnd. apply recordOriginal_lookup; [done |]. by eapply list_elem_of_lookup_2.
  - cbn [massOfVertex fixed]. intros [Ht | Hg]%orb_true_iff.
    + left. by apply String.eqb_eq.
    + right. by apply includes_spec.
  - cbn [massOfVertex fixed]. intros [Ht | Hg]; apply orb_true_iff.
    + left. by apply String.eqb_eq.
    + right. by apply includes_spec.
Qed.

Lemma masses_follow_vertices_witness :
  ∃ m, masses (init (Some (mkMeshData [mkVertex "brow" 1 2 3 "forehead_left" "surface" 0.5]
                                      [] None None)) constructor) !! 0%nat = Some m
       ∧ fixed m = true ∧ mass m = 0.5 * 10
       ∧ originalPositions
           (init (Some (mkMeshData [mkVertex "brow" 1 2 3 "forehead_left" "surface" 0.5]
                                   [] None None)) constructor) !! "brow"
         = Some (mkVec3 1 2 3).
Proof.
  destruct (proj2 (masses_follow_vertices
                     (mkMeshData [mkVertex "brow" 1 2 3 "forehead_left" "surface" 0.5]
                                 [] None None) constructor)
              0%nat (mkVertex "brow" 1 2 3 "forehead_left" "surface" 0.5) eq_refl)
    as (m & Hm & _ & _ & _ & _ & _ & Hw & _ & _ & Hrec & Hfix).
  exists m. split; [exact Hm |]. split; [| split; [exact Hw |]].
  - apply Hfix. right. by exists "fore"%string, "_left"%string.
  - apply Hrec. apply (bool_decide_unpack _). vm_compute. exact I.
Defined.

(** With a shared id the entry is the one of the later vertex. *)
Example shared_id_keeps_last :
  originalPositions (init (Some twinMesh) constructor) !! "knee" = Some (mkVec3 0 2 0).
Proof. vm_compute. reflexivity. Qed.

(** ** Direct force and impulse *)

(** X16: [applyForce] and [applyImpulse] act on one mass, the first one
    in the store that carries the id, when it is not fixed: its force
    accumulator gains the force, or its velocity gains the impulse divided
    by its mass; every other mass, a later one with the same id included,
    is left as it was. *)
Theorem direct_call_hits_first_match
    (massId : string) (v : Vec3) (e : PhysicsEngine) (i : nat) (m : Mass) :
  find massId (masses e) = Some (i, m) → fixed m = false →
  (∀ j mj, masses e !! j = Some mj → (j < i)%nat → mass_id mj ≠ massId)
  ∧ masses (applyForce massId v e) !! i
    = Some (set_force (mkVec3 (x (force m) + x v) (y (force m) + y v)
                              (z (force m) + z v)) m)
  ∧ (∀ j, j ≠ i → masses (applyForce massId v e) !! j = masses e !! j)
  ∧ masses (applyImpulse massId v e) !! i
    = Some (set_velocity (mkVec3 (x (velocity m) + x v / mass m)
                                 (y (velocity m) + y v / mass m)
                                 (z (velocity m) + z v / mass m)) m)
  ∧ (∀ j, j ≠ i → masses (applyImpulse massId v e) !! j = masses e !! j).
Proof.
  intros Hfind Hfree. unfold applyForce, applyImpulse. rewrite Hfind, Hfree.
  cbn [negb set_masses masses].
  unfold find in Hfind. apply list_find_Some in Hfind as (Hi & _ & Hmin).
  split; [exact Hmin |]. repeat split.
  - by rewrite list_lookup_alter_eq, Hi.
  - intros j Hj. by rewrite list_lookup_alter_ne.
  - by rewrite list_lookup_alter_eq, Hi.
  - intros j Hj. by rewrite list_lookup_alter_ne.
Qed.

Lemma direct_call_hits_first_match_witness :
  force <$> masses (applyForce "knee" (mkVec3 1 2 3) (init (Some twinMesh) constructor))
  = [mkVec3 (0 + 1) (0 + 2) (0 + 3); zero3].
Proof.
  destruct (direct_call_hits_first_match "knee" (mkVec3 1 2 3)
              (init (Some twinMesh) constructor) 0%nat
              (mkMass "knee" (mkVec3 0 1 0) (mkVec3 0 1 0) zero3 zero3 10 false
                      "leg" "surface"))
    as (_ & H0 & Hother & _); [reflexivity | reflexivity |].
  apply list_eq. intros [| [| j]].
  - rewrite list_lookup_fmap, H0. reflexivity.
  - rewrite list_lookup_fmap, (Hother 1%nat) by discriminate. reflexivity.
  - rewrite list_lookup_fmap, (Hother (S (S j))) by discriminate. reflexivity.
Defined.

(** ** The empty store *)

Lemma nil_length_inv_masses (ms : list Mass) : length ms = 0%nat → ms = [].
Proof. by destruct ms. Qed.

(** X17: an engine without masses, as it is before [init] or after
    [init] with an empty vertex list, takes every call: a step that runs
    returns the empty list and changes nothing, as do [reset], [applyWind]
    and [applyExplosion]; the calls by id find nothing. Construction from
    an empty vertex list yields no mass, no spring and no constraint,
    whatever edges and options the topology has. *)
Theorem empty_store_is_inert (e : PhysicsEngine) :
  masses e = [] →
  (∀ deltaTime, update deltaTime e
                = (e, if negb (enabled e) || (default (timeStep e) deltaTime <=? 0)
                      then None else Some []))
  ∧ reset e = e
  ∧ (∀ w, applyWind w e = e)
  ∧ (∀ c r f, applyExplosion c r f e = e)
  ∧ (∀ id v, applyForce id v e = e ∧ applyImpulse id v e = e
             ∧ toggleFixed id e = (e, None))
  ∧ (∀ meshData, vertices meshData = [] →
       masses (init (Some meshData) e) = []
       ∧ springs (init (Some meshData) e) = []
       ∧ constraints (init (Some meshData) e) = []).
Proof.
  intros Hms.
  assert (∀ ms, set_masses ms e = e ↔ ms = []) as Hset.
  { intros ms. split; [intros H; apply (f_equal masses) in H; by rewrite Hms in H |].
    intros ->. by rewrite <- Hms, set_masses_same. }
  split; [| split; [| split; [| split; [| split]]]].
  - intros deltaTime. unfold update. destruct (_ || _); [done |].
    assert (masses (clearForces (handleCollisions (applyConstraints
              (integrate (default (timeStep e) deltaTime) (applyForces e))))) = []) as Hnil.
    { apply nil_length_inv_masses.
      rewrite <- (length_fmap mass_id), clearForces_kept, handleCollisions_kept,
        applyConstraints_kept, integrate_kept, applyForces_kept by done.
      by rewrite Hms. }
    unfold getMassPositions. rewrite Hnil. cbn [fmap list_fmap]. f_equal.
    by apply Hset.
  - unfold reset. apply Hset. by rewrite Hms.
  - intros w. unfold applyWind. apply Hset. by rewrite Hms.
  - intros c r f. unfold applyExplosion. apply Hset. by rewrite Hms.
  - intros id v. unfold applyForce, applyImpulse, toggleFixed, getMassById.
    by rewrite Hms.
  - intros meshData Hvs. cbn [init parsePhysicsData masses springs constraints].
    rewrite Hvs. cbn [fmap list_fmap]. split; [done |]. split.
    + induction (edges meshData) as [| edge es IH]; [done |].
      cbn [omap list_omap].
      fold (omap (springOfEdge (meshTension meshData) (stiffness e) []) es).
      by rewrite IH.
    + by destruct (meshJointConstraints meshData).
Qed.

Lemma empty_store_is_inert_witness :
  update None (enable constructor) = (enable constructor, Some [])
  ∧ toggleFixed "A" constructor = (constructor, None).
Proof.
  destruct (empty_store_is_inert (enable constructor) eq_refl) as (Hup & _).
  destruct (empty_store_is_inert constructor eq_refl) as (_ & _ & _ & _ & Hid & _).
  split; [exact (Hup None) | exact (proj2 (proj2 (Hid "A" zero3)))].
Defined.

(** ** Diagnostics *)

Lemma run_springShape (ops : list Op) (e : PhysicsEngine) :
  springShape <$> springs (run ops e) = springShape <$> springs e.
Proof.
  revert e. induction ops as [| op ops IH]; intros e; [done |].
  unfold run. cbn [foldl]. fold (run ops (exec e op)).
  by rewrite IH, exec_springShape.
Qed.

Lemma run_constraints (ops : list Op) (e : PhysicsEngine) :
  constraints (run ops e) = constraints e.
Proof.
  revert e. induction ops as [| op ops IH]; intros e; [done |].
  unfold run. cbn [foldl]. fold (run ops (exec e op)).
  by rewrite IH, exec_constraints.
Qed.

(** X18: the counts reported by [getPhysicsData] are fixed at
    construction: after any sequence of calls [massCount] is the number of
    vertices, [springCount] the number of edges whose two ids name
    vertices, and [constraintCount] the number of distance constraints
    built from the table plus the number of free masses that started below
    the ground plane. *)
Theorem physics_data_counts (meshData : MeshData) (e : PhysicsEngine) (ops : list Op) :
  let e0 := init (Some meshData) e in
  let data := getPhysicsData (run ops e0) in
  massCount data = length (vertices meshData)
  ∧ springCount data = length (List.filter (knownEdge meshData) (edges meshData))
  ∧ constraintCount data
    = (length (List.filter is_distance (constraints e0))
       + length (List.filter belowGround (masses e0)))%nat
  ∧ data_enabled data = enabled (run ops e0)
  ∧ data_gravity data = gravity (run ops e0)
  ∧ data_damping data = damping (run ops e0)
  ∧ data_stiffness data = stiffness (run ops e0).
Proof.
  intros e0 data. unfold data, getPhysicsData.
  cbn [massCount springCount constraintCount data_enabled data_gravity data_damping
       data_stiffness].
  split; [| split; [| split; [| done]]].
  - rewrite <- (length_fmap identity), run_kept by done.
    rewrite length_fmap. unfold e0. cbn [init parsePhysicsData masses]. apply length_fmap.
  - rewrite <- (length_fmap springShape), run_springShape, length_fmap.
    unfold e0. cbn [init parsePhysicsData springs].
    apply length_omap_filter. intros edge. apply springOfEdge_is_Some.
  - rewrite run_constraints. unfold e0. cbn [init].
    rewrite (constraints_parsed meshData e).
    cbn [parsePhysicsData masses constraints].
    by rewrite length_app, addCollisionConstraints_length.
Qed.

(** ** No second bounce *)

Lemma collideMass_skip (m : Mass) :
  (y (position m) <? -50) = false → collideMass m = m.
Proof. intros Hy. unfold collideMass. by rewrite Hy, andb_false_r. Qed.

Lemma collideMass_twice (m : Mass) : collideMass (collideMass m) = collideMass m.
Proof.
  destruct (negb (fixed m) && (y (position m) <? -50)) eqn:Hlow.
  - assert (collideMass m
            = set_velocity (mkVec3 (x (velocity m) * 0.9) (- y (velocity m) * 0.7)
                                   (z (velocity m) * 0.9))
                (set_position (mkVec3 (x (position m)) (-50) (z (position m))) m)) as ->
      by (unfold collideMass; by rewrite Hlow).
    apply collideMass_skip. reflexivity.
  - assert (collideMass m = m) as -> by (unfold collideMass; by rewrite Hlow).
    unfold collideMass. by rewrite Hlow.
Qed.

(** X19: resolving the ground collisions a second time changes nothing:
    a mass that was put on the plane and bounced is not bounced again. *)
Theorem handleCollisions_twice (e : PhysicsEngine) :
  handleCollisions (handleCollisions e) = handleCollisions e.
Proof.
  unfold handleCollisions, set_masses. cbn [masses gravity damping stiffness enabled
    timeStep springs constraints originalPositions]. f_equal.
  rewrite <- list_fmap_compose. apply list_fmap_ext. intros _ m _.
  apply collideMass_twice.
Qed.
